(** * rfp-judge: upload and workflow orchestration, verified against its source

    A shallow embedding of the three React components of the repository:

    - [DifyFileUpload]     (file validation before an upload),
    - [DifyResultDisplay]  (compliance statistics of a workflow payload),
    - [DifyFileUploadDemo] (upload registry, workflow execution, error slot).

    React state is modelled by explicit state passing: a handler is a function
    from the component state to the next state.  An [async] handler is split at
    its single [await] boundary into the part that runs when it is called and
    the continuation that runs when the awaited [fetch] settles.  Every handler
    is taken to run against the latest committed state, which is what React
    provides for handlers attached by the latest render.  Output to the
    console is left out. *)

From Stdlib Require Import Ascii QArith.
From stdpp Require Import base decidable option numbers list strings pretty gmap fin_maps fin_sets.

(** ** JavaScript strings

    A JavaScript string is represented by the bytes of its UTF-8 encoding, the
    encoding of the source files themselves. *)

Module JS.

Definition isEmpty (s : string) : bool :=
  match s with EmptyString => true | String _ _ => false end.

(** [String.prototype.toLowerCase] on the letters A-Z.  Bytes of multi-byte
    code points are kept: no code point outside A-Z lower-cases to one of the
    letters b d e f g i j n p w that occur in the supported formats. *)
Definition toLowerCaseChar (c : ascii) : ascii :=
  let n := N_of_ascii c in
  if ((65 <=? n) && (n <=? 90))%N then ascii_of_N (n + 32) else c.

Fixpoint toLowerCase (s : string) : string :=
  match s with
  | EmptyString => EmptyString
  | String c r => String (toLowerCaseChar c) (toLowerCase r)
  end.

(** [s.split(sep)] for a one-character separator: never the empty array. *)
Fixpoint split (sep : ascii) (s : string) : list string :=
  match s with
  | EmptyString => [EmptyString]
  | String c r =>
      if decide (c = sep) then EmptyString :: split sep r
      else match split sep r with
           | seg :: rest => String c seg :: rest
           | [] => [String c EmptyString]
           end
  end.

(** [Array.prototype.pop]: the last element, [undefined] on the empty array. *)
Definition pop (l : list string) : option string := last l.

(** [Array.prototype.includes] on strings. *)
Definition includes (l : list string) (s : string) : bool := bool_decide (s ∈ l).

(** [Array.prototype.join]. *)
Definition join (sep : string) (l : list string) : string := String.concat sep l.

(** White space in the sense of [String.prototype.trim] (WhiteSpace and
    LineTerminator code points), recognised on the UTF-8 encoding. *)
Definition isWhiteSpace1 (a : N) : bool :=
  (* U+0009 .. U+000D, U+0020 *)
  (((9 <=? a) && (a <=? 13)) || (a =? 32))%N.

Definition isWhiteSpace2 (a b : N) : bool :=
  (* U+00A0 *)
  ((a =? 194) && (b =? 160))%N.

Definition isWhiteSpace3 (a b c : N) : bool :=
  (* U+1680 *)
  (((a =? 225) && (b =? 154) && (c =? 128))
  (* U+2000 .. U+200A, U+2028, U+2029, U+202F *)
  || ((a =? 226) && (b =? 128) &&
      (((128 <=? c) && (c <=? 138)) || (c =? 168) || (c =? 169) || (c =? 175)))
  (* U+205F *)
  || ((a =? 226) && (b =? 129) && (c =? 159))
  (* U+3000 *)
  || ((a =? 227) && (b =? 128) && (c =? 128))
  (* U+FEFF *)
  || ((a =? 239) && (b =? 187) && (c =? 191)))%N.

(** Drops the white space at the front of a byte sequence; [fwd] tells whether
    the sequence is read front to back or, for [trimEnd], back to front. *)
Fixpoint dropWhiteSpace (fwd : bool) (l : list N) : list N :=
  match l with
  | [] => []
  | a :: r1 =>
      if isWhiteSpace1 a then dropWhiteSpace fwd r1
      else match r1 with
           | [] => l
           | b :: r2 =>
               if (if fwd then isWhiteSpace2 a b else isWhiteSpace2 b a)
               then dropWhiteSpace fwd r2
               else match r2 with
                    | [] => l
                    | c :: r3 =>
                        if (if fwd then isWhiteSpace3 a b c else isWhiteSpace3 c b a)
                        then dropWhiteSpace fwd r3
                        else l
                    end
           end
  end.

Definition bytes (s : string) : list N := N_of_ascii <$> String.list_ascii_of_string s.
Definition ofBytes (l : list N) : string := String.string_of_list_ascii (ascii_of_N <$> l).

Definition trimStart (s : string) : string := ofBytes (dropWhiteSpace true (bytes s)).
Definition trimEnd (s : string) : string :=
  ofBytes (rev (dropWhiteSpace false (rev (bytes s)))).

(** [String.prototype.trim]. *)
Definition trim (s : string) : string := trimEnd (trimStart s).

(** A value parsed by [response.json()]. *)
#[warnings="-register-all"]
Inductive json : Type :=
  | JNull
  | JBool (b : bool)
  | JNumber (q : Q)
  | JString (s : string)
  | JArray (items : list json)
  | JObject (fields : list (string * json)).

(** [ToBoolean] on parsed JSON: [null], [false], [0] and the empty string are
    falsy, arrays and objects are truthy. *)
Definition truthy (v : json) : bool :=
  match v with
  | JNull => false
  | JBool b => b
  | JNumber q => negb (Qeq_bool q 0)
  | JString s => negb (isEmpty s)
  | JArray _ | JObject _ => true
  end.

(** What an expression throws: an [Error] with its message, or another value. *)
Inductive thrown : Type :=
  | ThrownError (message : string)
  | ThrownOther.

(** The own property [key] of a parsed object. *)
Fixpoint lookupField (key : string) (fields : list (string * json)) : option json :=
  match fields with
  | [] => None
  | (k, v) :: rest => if decide (k = key) then Some v else lookupField key rest
  end.

(** [v.key] on a parsed value: throws a [TypeError] on [null], is [undefined]
    on the other primitives, on arrays and on objects without the key. *)
Definition getField (key : string) (v : json) : thrown + option json :=
  match v with
  | JNull =>
      inl (ThrownError ("Cannot read properties of null (reading '" +:+ key +:+ "')"))
  | JObject fields => inr (lookupField key fields)
  | _ => inr None
  end.

End JS.

(** ** DifyFileUpload *)

Record File := { file_name : string; file_size : N; file_type : string }.

Definition supportedFormats : list string :=
  ["png"; "jpg"; "jpeg"; "webp"; "gif"; "pdf"].

Definition unsupportedFormatMessage : string :=
  "サポートされていないファイル形式です。対応形式: " +:+ JS.join ", " supportedFormats.

(** [validateFile]: the error message, or [None] ([null]) when the file is
    accepted. *)
Definition validateFile (file : File) : option string :=
  let extension := JS.toLowerCase <$> JS.pop (JS.split "." (file_name file)) in
  match extension with
  | None => Some unsupportedFormatMessage
  | Some e =>
      if JS.isEmpty e || negb (JS.includes supportedFormats e)
      then Some unsupportedFormatMessage
      else None
  end.


(** ** DifyResultDisplay *)

Record Assessment := {
  compliance_status : string;
  reasoning : string;
  alternative_solution : option string;
  reference_source : option string;
  assessment_type : option string
}.

Record JudgementItem := { original_item : string; assessment : Assessment }.

(** The accumulator of the [reduce] is the object literal [{}]: an object with
    no own property whose prototype is [Object.prototype].  Reading a key that
    is not an own property falls through to the prototype, and writing the key
    [__proto__] goes to the prototype's setter. *)
Module Obj.

(** What the reducer stores under a key: a number or, after [+] on a value
    that is not a number, a string. *)
Inductive stored : Type :=
  | Num (n : nat)
  | Str (s : string).

(** What reading a key yields. *)
Inductive value : Type :=
  | Undefined
  | Own (v : stored)
  | BuiltinFunction (name : string)
  | ObjectPrototype.

(** The function-valued properties of [Object.prototype]. *)
Definition prototypeFunctions : list string :=
  ["constructor"; "hasOwnProperty"; "isPrototypeOf"; "propertyIsEnumerable";
   "toLocaleString"; "toString"; "valueOf";
   "__defineGetter__"; "__defineSetter__"; "__lookupGetter__"; "__lookupSetter__"].

(** Every key that [Object.prototype] answers. *)
Definition prototypeKeys : list string := "__proto__" :: prototypeFunctions.

(** [acc[key]]. *)
Definition get (acc : gmap string stored) (key : string) : value :=
  match acc !! key with
  | Some v => Own v
  | None =>
      if decide (key = "__proto__") then ObjectPrototype
      else if decide (key ∈ prototypeFunctions) then BuiltinFunction key
      else Undefined
  end.

Definition toBoolean (v : value) : bool :=
  match v with
  | Undefined => false
  | Own (Num n) => negb (n =? 0)%nat
  | Own (Str s) => negb (JS.isEmpty s)
  | BuiltinFunction _ | ObjectPrototype => true
  end.

(** The text a built-in function converts to (the form V8 prints). *)
Definition functionSource (name : string) : string :=
  "function " +:+ (if decide (name = "constructor") then "Object" else name)
  +:+ "() { [native code] }".

(** [(v || 0) + 1]: addition on a number, concatenation on anything else. *)
Definition orZeroPlusOne (v : value) : stored :=
  if toBoolean v then
    match v with
    | Own (Num n) => Num (n + 1)
    | Own (Str s) => Str (s +:+ "1")
    | BuiltinFunction name => Str (functionSource name +:+ "1")
    | ObjectPrototype => Str "[object Object]1"
    | Undefined => Num 1
    end
  else Num 1.

(** [acc[key] = v] for a number or a string [v]: the setter of [__proto__]
    ignores a value that is neither an object nor [null]; any other key
    becomes (or stays) an own property. *)
Definition set (acc : gmap string stored) (key : string) (v : stored) : gmap string stored :=
  if decide (key = "__proto__") then acc else <[key := v]> acc.

End Obj.

(** [complianceStats]: the [reduce] over [result.outputs.judgement]. *)
Definition complianceStats (judgement : list JudgementItem) : gmap string Obj.stored :=
  foldl (λ acc item,
           let key := compliance_status (assessment item) in
           Obj.set acc key (Obj.orZeroPlusOne (Obj.get acc key)))
        ∅ judgement.

(** A JavaScript number as the percentage expression produces it. *)
Inductive number : Type :=
  | Finite (n : nat)
  | NaN
  | Infinity.

(** [Math.round((count / length) * 100)].  A count that is a string converts
    to [NaN]; division by zero yields [NaN] or [Infinity] and does not throw.
    The quotient of the finite case is taken exactly, rounded half up. *)
Definition percentage (count : Obj.stored) (length : nat) : number :=
  match count with
  | Obj.Str _ => NaN
  | Obj.Num c =>
      if (length =? 0)%nat then (if (c =? 0)%nat then NaN else Infinity)
      else Finite ((200 * c + length) / (2 * length))
  end.

(** The rows of the summary card: one per entry of [complianceStats], with
    its count and its percentage of [result.outputs.judgement.length]. *)
Definition summaryRows (judgement : list JudgementItem) : gmap string (Obj.stored * number) :=
  (λ count, (count, percentage count (length judgement))) <$> complianceStats judgement.

(** The sum of the numeric counts of a statistics object. *)
Definition count (v : Obj.stored) : nat :=
  match v with Obj.Num n => n | Obj.Str _ => 0 end.

Definition totalCount (stats : gmap string Obj.stored) : nat :=
  map_fold (λ _ v acc, count v + acc) 0 stats.

(** ** DifyFileUploadDemo *)

Record UploadResult := {
  ur_id : string;
  ur_name : string;
  ur_size : N;
  ur_extension : string;
  ur_mime_type : string;
  ur_created_by : string;
  ur_created_at : N;
  ur_file : option File
}.

Inductive WorkflowStatus : Type := running | completed | failed.

Record WorkflowResult := {
  wr_id : JS.json;
  wr_file_id : string;
  wr_status : WorkflowStatus;
  wr_result : option JS.json;
  wr_created_at : N;
  wr_error : option string
}.

(** The [useState] cells of the component. *)
Record State := {
  apiKey : string;
  workflowApiKey : string;
  userId : string;
  uploadResults : list UploadResult;
  workflowResults : list WorkflowResult;
  error : option string;
  executingWorkflows : gset string
}.

Definition initialState : State := {|
  apiKey := EmptyString;
  workflowApiKey := EmptyString;
  userId := "user-123";
  uploadResults := [];
  workflowResults := [];
  error := None;
  executingWorkflows := ∅
|}.

Definition setApiKey (v : string) (s : State) : State :=
  {| apiKey := v; workflowApiKey := workflowApiKey s; userId := userId s;
     uploadResults := uploadResults s; workflowResults := workflowResults s;
     error := error s; executingWorkflows := executingWorkflows s |}.

Definition setWorkflowApiKey (v : string) (s : State) : State :=
  {| apiKey := apiKey s; workflowApiKey := v; userId := userId s;
     uploadResults := uploadResults s; workflowResults := workflowResults s;
     error := error s; executingWorkflows := executingWorkflows s |}.

Definition setUserId (v : string) (s : State) : State :=
  {| apiKey := apiKey s; workflowApiKey := workflowApiKey s; userId := v;
     uploadResults := uploadResults s; workflowResults := workflowResults s;
     error := error s; executingWorkflows := executingWorkflows s |}.

(** The setters take the updater function, as [setX((prev) => ...)] does. *)
Definition setUploadResults (f : list UploadResult → list UploadResult) (s : State) : State :=
  {| apiKey := apiKey s; workflowApiKey := workflowApiKey s; userId := userId s;
     uploadResults := f (uploadResults s); workflowResults := workflowResults s;
     error := error s; executingWorkflows := executingWorkflows s |}.

Definition setWorkflowResults (f : list WorkflowResult → list WorkflowResult) (s : State) : State :=
  {| apiKey := apiKey s; workflowApiKey := workflowApiKey s; userId := userId s;
     uploadResults := uploadResults s; workflowResults := f (workflowResults s);
     error := error s; executingWorkflows := executingWorkflows s |}.

Definition setError (v : option string) (s : State) : State :=
  {| apiKey := apiKey s; workflowApiKey := workflowApiKey s; userId := userId s;
     uploadResults := uploadResults s; workflowResults := workflowResults s;
     error := v; executingWorkflows := executingWorkflows s |}.

Definition setExecutingWorkflows (f : gset string → gset string) (s : State) : State :=
  {| apiKey := apiKey s; workflowApiKey := workflowApiKey s; userId := userId s;
     uploadResults := uploadResults s; workflowResults := workflowResults s;
     error := error s; executingWorkflows := f (executingWorkflows s) |}.

(** [handleUploadSuccess]: [{ ...result, file }] is put in front of the list. *)
Definition handleUploadSuccess (result : UploadResult) (file : File) (s : State) : State :=
  let uploadResult :=
    {| ur_id := ur_id result; ur_name := ur_name result; ur_size := ur_size result;
       ur_extension := ur_extension result; ur_mime_type := ur_mime_type result;
       ur_created_by := ur_created_by result; ur_created_at := ur_created_at result;
       ur_file := Some file |} in
  setError None (setUploadResults (λ prev, uploadResult :: prev) s).

Definition handleUploadError (errorMessage : string) (s : State) : State :=
  setError (Some errorMessage) s.

(** The [onClose] handler of the error alert. *)
Definition closeAlert (s : State) : State := setError None s.

(** The request that [executeWorkflow] passes to [fetch]. *)
Record WorkflowRequest := {
  req_authorization : string;
  req_upload_file_id : string;
  req_user : string
}.

Definition missingApiKeyMessage : string := "ワークフロー用のAPI Keyを入力してください".
Definition fileNotFoundMessage : string := "ファイルが見つかりません".
Definition workflowErrorMessage : string := "ワークフロー実行エラーが発生しました".

(** [uploadResults.find((result) => result.id === fileId)]. *)
Definition findUpload (fileId : string) (s : State) : option UploadResult :=
  List.find (λ result, bool_decide (ur_id result = fileId)) (uploadResults s).

(** [executeWorkflow] up to its [await fetch(...)]: the next state and the
    request handed to [fetch], if the function gets that far.  The updater
    [new Set(prev.add(fileId))] also adds to the previous set in place; as a
    value the new set is the previous one with [fileId] added. *)
Definition executeWorkflow (fileId : string) (s : State) : State * option WorkflowRequest :=
  if JS.isEmpty (JS.trim (workflowApiKey s)) then
    (setError (Some missingApiKeyMessage) s, None)
  else
    match findUpload fileId s ≫= ur_file with
    | None => (setError (Some fileNotFoundMessage) s, None)
    | Some _ =>
        (setError None (setExecutingWorkflows (λ prev, prev ∪ {[fileId]}) s),
         Some {| req_authorization := "Bearer " +:+ workflowApiKey s;
                 req_upload_file_id := fileId;
                 req_user := userId s |})
    end.

(** How the awaited [fetch] settles: it rejects; or it resolves to a response
    that is not [ok], whose [text()] rejects or yields the body; or to a
    response that is [ok], whose [json()] rejects or yields the parsed body. *)
Inductive FetchOutcome : Type :=
  | FetchRejected (e : JS.thrown)
  | ResponseNotOk (status : N) (statusText : string) (body : JS.thrown + string)
  | ResponseOk (body : JS.thrown + JS.json).

Definition newline : string := String (ascii_of_N 10) EmptyString.

(** The [try] block after the [await]: the record it builds, or what it
    throws.  [now] is the reading of [Date.now()]; the readings that one run
    of the function makes are taken to be the same instant. *)
Definition tryBlock (fileId : string) (outcome : FetchOutcome) (now : N)
  : JS.thrown + WorkflowResult :=
  match outcome with
  | FetchRejected e => inl e
  | ResponseNotOk _ _ (inl e) => inl e
  | ResponseNotOk status statusText (inr errorText) =>
      inl (JS.ThrownError
             ("ワークフロー実行に失敗しました: " +:+ pretty status +:+ " " +:+ statusText
              +:+ newline +:+ "詳細: " +:+ errorText))
  | ResponseOk (inl e) => inl e
  | ResponseOk (inr result) =>
      match JS.getField "workflow_run_id" result with
      | inl e => inl e
      | inr workflow_run_id =>
          let fallback := JS.JString ("workflow_" +:+ pretty now) in
          inr {| wr_id := match workflow_run_id with
                          | Some v => if JS.truthy v then v else fallback
                          | None => fallback
                          end;
                 wr_file_id := fileId;
                 wr_status := completed;
                 wr_result := Some result;
                 wr_created_at := (now / 1000)%N;
                 wr_error := None |}
      end
  end.

(** [error instanceof Error ? error.message : "..."]. *)
Definition errorMessageOf (e : JS.thrown) : string :=
  match e with
  | JS.ThrownError message => message
  | JS.ThrownOther => workflowErrorMessage
  end.

(** The rest of [executeWorkflow], run when the awaited calls have settled:
    the end of the [try] block or the [catch] block, then the [finally]. *)
Definition executeWorkflowSettled (fileId : string) (outcome : FetchOutcome) (now : N)
    (s : State) : State :=
  let s' :=
    match tryBlock fileId outcome now with
    | inr workflowResult => setWorkflowResults (λ prev, workflowResult :: prev) s
    | inl e =>
        let errorMessage := errorMessageOf e in
        let failedResult :=
          {| wr_id := JS.JString ("failed_" +:+ pretty now);
             wr_file_id := fileId;
             wr_status := failed;
             wr_result := None;
             wr_created_at := (now / 1000)%N;
             wr_error := Some errorMessage |} in
        setWorkflowResults (λ prev, failedResult :: prev) (setError (Some errorMessage) s)
    end in
  setExecutingWorkflows (λ prev, prev ∖ {[fileId]}) s'.

(** [getWorkflowResultForFile]. *)
Definition getWorkflowResultForFile (fileId : string) (s : State) : option WorkflowResult :=
  List.find (λ result, bool_decide (wr_file_id result = fileId)) (workflowResults s).

(** [executingWorkflows.has(fileId)]. *)
Definition isExecuting (fileId : string) (s : State) : bool :=
  bool_decide (fileId ∈ executingWorkflows s).

(** The two values the action cell of a file row is computed from. *)
Record ReadModel := { pending : bool; latest : option WorkflowResult }.

Definition readModel (fileId : string) (s : State) : ReadModel :=
  {| pending := isExecuting fileId s; latest := getWorkflowResultForFile fileId s |}.

(** What the action cell of a file row shows. *)
Inductive ActionCell : Type :=
  | ExecutingButton      (* disabled, with a spinner *)
  | CompletedChip
  | FailedChipWithRetry  (* the retry button calls [executeWorkflow] *)
  | ExecuteButton.       (* calls [executeWorkflow] *)

Definition actionCell (fileId : string) (s : State) : ActionCell :=
  if pending (readModel fileId s) then ExecutingButton
  else match latest (readModel fileId s) with
       | Some workflowResult =>
           match wr_status workflowResult with
           | completed => CompletedChip
           | failed => FailedChipWithRetry
           | running => ExecuteButton
           end
       | None => ExecuteButton
       end.

(** Whether the cell carries a button whose [onClick] is [executeWorkflow]. *)
Definition offersExecute (cell : ActionCell) : bool :=
  match cell with
  | FailedChipWithRetry | ExecuteButton => true
  | ExecutingButton | CompletedChip => false
  end.

(** The status chip of [DifyResultDisplay]: green only for [succeeded]. *)
Definition statusChipColor (status : string) : string :=
  if decide (status = "succeeded") then "success" else "error".

(** ** The component as a transition system

    Besides the React state, the system has the [fetch] calls that
    [executeWorkflow] has issued and that have not settled yet. *)
Record World := { ui : State; inFlight : list string }.

Definition initialWorld : World := {| ui := initialState; inFlight := [] |}.

Inductive Event : Type :=
  | UploadSucceeded (result : UploadResult) (file : File)
  | UploadFailed (errorMessage : string)
  | AlertClosed
  | ApiKeyTyped (v : string)
  | WorkflowApiKeyTyped (v : string)
  | UserIdTyped (v : string)
  | ExecuteCalled (fileId : string)
  | FetchSettled (fileId : string) (outcome : FetchOutcome) (now : N).

(** Removes one occurrence of [x]. *)
Fixpoint removeOne (x : string) (l : list string) : list string :=
  match l with
  | [] => []
  | y :: r => if decide (x = y) then r else y :: removeOne x r
  end.

(** One event; [None] when the event cannot happen (a fetch that was never
    issued cannot settle). *)
Definition step (w : World) (e : Event) : option World :=
  match e with
  | UploadSucceeded result file =>
      Some {| ui := handleUploadSuccess result file (ui w); inFlight := inFlight w |}
  | UploadFailed errorMessage =>
      Some {| ui := handleUploadError errorMessage (ui w); inFlight := inFlight w |}
  | AlertClosed => Some {| ui := closeAlert (ui w); inFlight := inFlight w |}
  | ApiKeyTyped v => Some {| ui := setApiKey v (ui w); inFlight := inFlight w |}
  | WorkflowApiKeyTyped v =>
      Some {| ui := setWorkflowApiKey v (ui w); inFlight := inFlight w |}
  | UserIdTyped v => Some {| ui := setUserId v (ui w); inFlight := inFlight w |}
  | ExecuteCalled fileId =>
      let '(s, request) := executeWorkflow fileId (ui w) in
      Some {| ui := s;
              inFlight := match request with
                          | Some _ => fileId :: inFlight w
                          | None => inFlight w
                          end |}
  | FetchSettled fileId outcome now =>
      if decide (fileId ∈ inFlight w) then
        Some {| ui := executeWorkflowSettled fileId outcome now (ui w);
                inFlight := removeOne fileId (inFlight w) |}
      else None
  end.

Fixpoint run (w : World) (events : list Event) : option World :=
  match events with
  | [] => Some w
  | e :: rest => step w e ≫= λ w', run w' rest
  end.

(** An event that the rendered page lets happen: [executeWorkflow] is reached
    only through the button of a file row, so the row exists and its action
    cell offers the button. *)
Definition offered (w : World) (e : Event) : bool :=
  match e with
  | ExecuteCalled fileId =>
      bool_decide (fileId ∈ ur_id <$> uploadResults (ui w))
      && offersExecute (actionCell fileId (ui w))
  | _ => true
  end.

Fixpoint runOffered (w : World) (events : list Event) : option World :=
  match events with
  | [] => Some w
  | e :: rest =>
      if offered w e then step w e ≫= λ w', runOffered w' rest else None
  end.

(** ** What the claims are measured against *)

(** Follows the claim's words: the substring of a name after its last ['.'],
    and nothing for a name without ['.']. *)
Fixpoint afterLastDot (s : string) : option string :=
  match s with
  | EmptyString => None
  | String c r =>
      match afterLastDot r with
      | Some e => Some e
      | None => if decide (c = "."%char) then Some r else None
      end
  end.

(** How often a status occurs in a judgement list. *)
Definition occurrences (status : string) (judgement : list JudgementItem) : nat :=
  length (filter (λ item, compliance_status (assessment item) = status) judgement).

(** A judgement item with the given status. *)
Definition itemWithStatus (status : string) : JudgementItem :=
  {| original_item := "req1";
     assessment := {| compliance_status := status; reasoning := "ok";
                      alternative_solution := None; reference_source := None;
                      assessment_type := None |} |}.

(** No status of the list is a key that [Object.prototype] answers. *)
Definition plainStatuses (judgement : list JudgementItem) : Prop :=
  Forall (λ item, compliance_status (assessment item) ∉ Obj.prototypeKeys) judgement.

Definition fileNamed (name : string) : File :=
  {| file_name := name; file_size := 1024; file_type := "application/pdf" |}.

(** [!workflowApiKey.trim()] is false: a credential is configured. *)
Definition credentialGiven (s : State) : bool :=
  negb (JS.isEmpty (JS.trim (workflowApiKey s))).

(** [uploadResult?.file] is truthy: the file is registered. *)
Definition hasFile (fileId : string) (s : State) : bool :=
  bool_decide (is_Some (findUpload fileId s ≫= ur_file)).

(** The failures of the gateway call: [fetch] rejects (network failure), the
    response is not [ok], or the body of an [ok] response does not parse. *)
Definition gatewayFailed (outcome : FetchOutcome) : bool :=
  match outcome with
  | FetchRejected _ | ResponseNotOk _ _ _ | ResponseOk (inl _) => true
  | ResponseOk (inr _) => false
  end.

(** What the runtime itself threw while the call settled, if anything. *)
Definition thrownByRuntime (outcome : FetchOutcome) : option JS.thrown :=
  match outcome with
  | FetchRejected e | ResponseNotOk _ _ (inl e) | ResponseOk (inl e) => Some e
  | ResponseNotOk _ _ (inr _) | ResponseOk (inr _) => None
  end.

(** An [Error] thrown by the runtime carries a message, as the errors of
    [fetch], [text()] and [json()] do in a browser. *)
Definition runtimeErrorsDescribed (outcome : FetchOutcome) : bool :=
  match thrownByRuntime outcome with
  | Some (JS.ThrownError message) => negb (JS.isEmpty message)
  | Some JS.ThrownOther | None => true
  end.

(** The events at which the code runs [setError(null)]: a successful upload,
    the alert being closed, and a call of [executeWorkflow] that passes both
    checks. *)
Definition clearsError (w : World) (e : Event) : bool :=
  match e with
  | UploadSucceeded _ _ | AlertClosed => true
  | ExecuteCalled fileId => credentialGiven (ui w) && hasFile fileId (ui w)
  | UploadFailed _ | ApiKeyTyped _ | WorkflowApiKeyTyped _ | UserIdTyped _
  | FetchSettled _ _ _ => false
  end.

(** The scenario of the specification: [doc.pdf] uploaded as [f1]. *)
Definition docPdf : File :=
  {| file_name := "doc.pdf"; file_size := 1024; file_type := "application/pdf" |}.

Definition uploadOf (id : string) : UploadResult :=
  {| ur_id := id; ur_name := "doc.pdf"; ur_size := 1024; ur_extension := "pdf";
     ur_mime_type := "application/pdf"; ur_created_by := "user-123";
     ur_created_at := 1700000000; ur_file := None |}.

(** [f1] is registered and a credential is typed in. *)
Definition readyWorld : World :=
  {| ui := setWorkflowApiKey "app-key" (handleUploadSuccess (uploadOf "f1") docPdf initialState);
     inFlight := [] |}.

(** The same with [executeWorkflow("f1")] called once: [f1] is pending. *)
Definition pendingState : State := (executeWorkflow "f1" (ui readyWorld)).1.

Definition failedPayload : JS.json :=
  JS.JObject [("workflow_run_id", JS.JString "run-1"); ("status", JS.JString "failed")].

Definition succeededPayload : JS.json :=
  JS.JObject [("workflow_run_id", JS.JString "run-2"); ("status", JS.JString "succeeded")].

(** [s'] differs from [s] in the error slot at most. *)
Definition sameButError (s s' : State) : Prop :=
  apiKey s' = apiKey s ∧ workflowApiKey s' = workflowApiKey s ∧ userId s' = userId s
  ∧ uploadResults s' = uploadResults s ∧ workflowResults s' = workflowResults s
  ∧ executingWorkflows s' = executingWorkflows s.

(** The fetches in flight and the set of executing workflows agree, and no
    file id has two fetches in flight. *)
Definition oneFetchPerFile (w : World) : Prop :=
  NoDup (inFlight w) ∧ ∀ fileId, fileId ∈ inFlight w ↔ fileId ∈ executingWorkflows (ui w).

(** ** The rest of the three components *)

(** [encodeURIComponent] on the UTF-8 bytes: the unreserved characters stay,
    every other byte becomes [%XX]. *)
Definition isUnreserved (n : N) : bool :=
  (((65 <=? n) && (n <=? 90)) || ((97 <=? n) && (n <=? 122)) || ((48 <=? n) && (n <=? 57))
   || (n =? 45) || (n =? 95) || (n =? 46) || (n =? 33) || (n =? 126) || (n =? 42)
   || (n =? 39) || (n =? 40) || (n =? 41))%N.

Definition hexDigit (n : N) : ascii :=
  if (n <? 10)%N then ascii_of_N (48 + n) else ascii_of_N (55 + n).

Fixpoint encodeURIComponent (s : string) : string :=
  match s with
  | EmptyString => EmptyString
  | String c r =>
      let n := N_of_ascii c in
      if isUnreserved n then String c (encodeURIComponent r)
      else String "%"%char
             (String (hexDigit (n / 16)) (String (hexDigit (n mod 16)) (encodeURIComponent r)))
  end.

Global Instance File_eq_dec : EqDecision File.
Proof. solve_decision. Defined.

(** [DifyFileUpload]: its state, its callbacks and [uploadFile].  The
    callbacks are the handlers that the page passes in; they return normally. *)
Module Upload.

Record State := { uploading : bool; dragOver : bool; uploadSuccess : bool }.

Definition initialState : State :=
  {| uploading := false; dragOver := false; uploadSuccess := false |}.

Definition setUploading (v : bool) (st : State) : State :=
  {| uploading := v; dragOver := dragOver st; uploadSuccess := uploadSuccess st |}.

Definition setDragOver (v : bool) (st : State) : State :=
  {| uploading := uploading st; dragOver := v; uploadSuccess := uploadSuccess st |}.

Definition setUploadSuccess (v : bool) (st : State) : State :=
  {| uploading := uploading st; dragOver := dragOver st; uploadSuccess := v |}.

Record Props := { apiKey : string; userId : string }.

(** A call of one of the two callback props. *)
Inductive Callback : Type :=
  | OnUploadSuccess (response : JS.json) (file : File)
  | OnUploadError (error : string).

(** The request of [uploadFile]: the header and the two form fields. *)
Record Request := { authorization : string; form_file : File; form_user : string }.

Definition uploadFailedMessage (status : N) (statusText : string) : string :=
  "アップロードに失敗しました: " +:+ pretty status +:+ " " +:+ statusText.
Definition parseFailedMessage : string := "レスポンスの解析に失敗しました".
Definition uploadErrorMessage : string := "アップロードエラーが発生しました".

(** [uploadFile] up to its [await fetch(...)]: the next state, the callbacks
    called and the request handed to [fetch], if any. *)
Definition uploadFile (props : Props) (file : File) (st : State)
  : State * list Callback * option Request :=
  match validateFile file with
  | Some validationError =>
      if JS.isEmpty validationError then
        (setUploading true st, [],
         Some {| authorization := "Bearer " +:+ apiKey props; form_file := file;
                 form_user := encodeURIComponent (userId props) |})
      else (st, [OnUploadError validationError], None)
  | None =>
      (setUploading true st, [],
       Some {| authorization := "Bearer " +:+ apiKey props; form_file := file;
               form_user := encodeURIComponent (userId props) |})
  end.

(** How the awaited calls settle: [fetch] rejects; the response is not [ok]
    and its [text()] rejects or yields the body; the response is [ok] and its
    [text()] rejects, or yields a text on which [JSON.parse] throws, or yields
    a text that parses. *)
Inductive Outcome : Type :=
  | Rejected (e : JS.thrown)
  | NotOk (status : N) (statusText : string) (body : JS.thrown + string)
  | OkUnread (e : JS.thrown)
  | OkUnparsable (responseText : string) (e : JS.thrown)
  | OkParsed (responseText : string) (result : JS.json).

(** The outer [try] block: the parsed result, or what it throws.  Whatever
    [JSON.parse] throws is replaced by the error of the inner [catch]. *)
Definition tryBlock (outcome : Outcome) : JS.thrown + JS.json :=
  match outcome with
  | Rejected e => inl e
  | NotOk _ _ (inl e) => inl e
  | NotOk status statusText (inr _) => inl (JS.ThrownError (uploadFailedMessage status statusText))
  | OkUnread e => inl e
  | OkUnparsable _ _ => inl (JS.ThrownError parseFailedMessage)
  | OkParsed _ result => inr result
  end.

Definition errorMessageOf (e : JS.thrown) : string :=
  match e with
  | JS.ThrownError message => message
  | JS.ThrownOther => uploadErrorMessage
  end.

(** The rest of [uploadFile]: the next state, the callback called, and
    whether the timer that resets the success mark is started. *)
Definition uploadFileSettled (file : File) (outcome : Outcome) (st : State)
  : State * list Callback * bool :=
  match tryBlock outcome with
  | inr result =>
      (setUploading false (setUploadSuccess true st), [OnUploadSuccess result file], true)
  | inl e => (setUploading false st, [OnUploadError (errorMessageOf e)], false)
  end.

(** [event.target.files?.[0]] and [event.dataTransfer.files[0]]. *)
Definition firstFile (files : list File) : option File := head files.

Definition handleFileSelect (props : Props) (files : list File) (st : State)
  : State * list Callback * option Request :=
  match firstFile files with
  | Some file => uploadFile props file st
  | None => (st, [], None)
  end.

Definition handleDrop (props : Props) (files : list File) (st : State)
  : State * list Callback * option Request :=
  match firstFile files with
  | Some file => uploadFile props file (setDragOver false st)
  | None => (setDragOver false st, [], None)
  end.

Definition handleDragOver (st : State) : State := setDragOver true st.
Definition handleDragLeave (st : State) : State := setDragOver false st.

(** The callback of [setTimeout]. *)
Definition resetUploadSuccess (st : State) : State := setUploadSuccess false st.

(** What the drop zone shows. *)
Inductive Face : Type := Spinner | SuccessMark | Prompt.

Definition face (st : State) : Face :=
  if uploading st then Spinner else if uploadSuccess st then SuccessMark else Prompt.

(** The component as a transition system: its state, the uploads whose
    [fetch] has not settled, the timers that have not fired, and the
    callbacks called so far, latest first. *)
Record World := {
  state : State;
  inFlight : list File;
  timers : nat;
  called : list Callback
}.

Definition initialWorld : World :=
  {| state := initialState; inFlight := []; timers := 0; called := [] |}.

Inductive Event : Type :=
  | FilesSelected (files : list File)
  | FilesDropped (files : list File)
  | DraggedOver
  | DragLeft
  | Settled (file : File) (outcome : Outcome)
  | TimerFired.

Fixpoint removeFile (x : File) (l : list File) : list File :=
  match l with
  | [] => []
  | y :: r => if decide (x = y) then r else y :: removeFile x r
  end.

Definition started (w : World) (r : State * list Callback * option Request)
    (file : option File) : World :=
  {| state := r.1.1;
     inFlight := match r.2, file with
                 | Some _, Some f => f :: inFlight w
                 | _, _ => inFlight w
                 end;
     timers := timers w;
     called := r.1.2 ++ called w |}.

Definition step (props : Props) (w : World) (e : Event) : option World :=
  match e with
  | FilesSelected files =>
      Some (started w (handleFileSelect props files (state w)) (firstFile files))
  | FilesDropped files =>
      Some (started w (handleDrop props files (state w)) (firstFile files))
  | DraggedOver =>
      Some {| state := handleDragOver (state w); inFlight := inFlight w;
              timers := timers w; called := called w |}
  | DragLeft =>
      Some {| state := handleDragLeave (state w); inFlight := inFlight w;
              timers := timers w; called := called w |}
  | Settled file outcome =>
      if decide (file ∈ inFlight w) then
        let r := uploadFileSettled file outcome (state w) in
        Some {| state := r.1.1; inFlight := removeFile file (inFlight w);
                timers := if r.2 then S (timers w) else timers w;
                called := r.1.2 ++ called w |}
      else None
  | TimerFired =>
      match timers w with
      | 0 => None
      | S n => Some {| state := resetUploadSuccess (state w); inFlight := inFlight w;
                       timers := n; called := called w |}
      end
  end.

Fixpoint run (props : Props) (w : World) (events : list Event) : option World :=
  match events with
  | [] => Some w
  | e :: rest => step props w e ≫= λ w', run props w' rest
  end.

(** The file input is [disabled] while [uploading]: it raises no change
    event then.  A drop has no such condition. *)
Definition offered (w : World) (e : Event) : bool :=
  match e with
  | FilesSelected _ => negb (uploading (state w))
  | _ => true
  end.

(** A run in which files arrive through the file input only. *)
Definition throughInput (e : Event) : bool :=
  match e with
  | FilesDropped (_ :: _) => false
  | _ => true
  end.

Fixpoint runThroughInput (props : Props) (w : World) (events : list Event) : option World :=
  match events with
  | [] => Some w
  | e :: rest =>
      if offered w e && throughInput e
      then step props w e ≫= λ w', runThroughInput props w' rest
      else None
  end.

(** The files that the events hand to [uploadFile]. *)
Definition submitted (e : Event) : option File :=
  match e with
  | FilesSelected files | FilesDropped files => firstFile files
  | _ => None
  end.

End Upload.

(** [DifyResultDisplay]: icons and colours. *)
Inductive Icon : Type :=
  | CheckCircleIcon | WarningIcon | CancelIcon | InfoIcon
  | ImageIcon | PdfIcon | FolderIcon.

(** What stands beside the status chip: an icon in a colour, or the progress
    bar of the given width. *)
Inductive StatusMark : Type :=
  | ColouredIcon (icon : Icon) (color : string)
  | LinearProgress (width : N).

Definition getComplianceStatusIcon (status : string) : Icon * string :=
  if decide (status = "○") then (CheckCircleIcon, "#4caf50")
  else if decide (status = "△") then (WarningIcon, "#ff9800")
  else if decide (status = "×") then (CancelIcon, "#f44336")
  else (InfoIcon, "#2196f3").

Definition getComplianceStatusColor (status : string) : string :=
  if decide (status = "○") then "success"
  else if decide (status = "△") then "warning"
  else if decide (status = "×") then "error"
  else "default".

Definition getStatusIcon (status : string) : StatusMark :=
  if decide (status = "succeeded") then ColouredIcon CheckCircleIcon "#4caf50"
  else if decide (status = "failed") then ColouredIcon CancelIcon "#f44336"
  else if decide (status = "running") then LinearProgress 100
  else ColouredIcon InfoIcon "#2196f3".

(** The chip of a row of the summary card. *)
Record SummaryChip := { chip_icon : Icon * string; chip_color : string }.

Definition summaryChip (status : string) : SummaryChip :=
  {| chip_icon := getComplianceStatusIcon status;
     chip_color := getComplianceStatusColor status |}.

(** [DifyFileUploadDemo]: the file type column. *)
Definition getFileTypeIcon (mimeType : string) : Icon * string :=
  if String.prefix "image/" mimeType then (ImageIcon, "primary")
  else if decide (mimeType = "application/pdf") then (PdfIcon, "error")
  else (FolderIcon, "action").

Record FileTypeChip := { ftc_label : string; ftc_color : string; ftc_icon : Icon }.

Definition getFileTypeChip (mimeType : string) : FileTypeChip :=
  if String.prefix "image/" mimeType then
    {| ftc_label := "画像"; ftc_color := "primary"; ftc_icon := ImageIcon |}
  else if decide (mimeType = "application/pdf") then
    {| ftc_label := "PDF"; ftc_color := "error"; ftc_icon := PdfIcon |}
  else {| ftc_label := "その他"; ftc_color := "default"; ftc_icon := FolderIcon |}.





(** ** What the further properties are measured against *)

(** The text that [n] additions of [1] leave behind a string. *)
Fixpoint ones (n : nat) : string :=
  match n with
  | 0 => EmptyString
  | S m => ones m +:+ "1"
  end.

(** What [complianceStats] holds under a key that occurs [n] times. *)
Definition bucket (key : string) (n : nat) : option Obj.stored :=
  match n with
  | 0 => None
  | S _ =>
      if decide (key = "__proto__") then None
      else if decide (key ∈ Obj.prototypeFunctions)
           then Some (Obj.Str (Obj.functionSource key +:+ ones n))
           else Some (Obj.Num n)
  end.

(** A record as [executeWorkflow] builds them. *)
Definition recordWellFormed (r : WorkflowResult) : Prop :=
  (wr_status r = completed ∧ is_Some (wr_result r) ∧ wr_error r = None)
  ∨ (wr_status r = failed ∧ wr_result r = None ∧ is_Some (wr_error r)).

(** Every upload holds its file, and every record, every executing id and
    every fetch in flight names a registered upload. *)
Definition referencesRegistered (w : World) : Prop :=
  (∀ u, u ∈ uploadResults (ui w) → is_Some (ur_file u))
  ∧ (∀ r, r ∈ workflowResults (ui w) → wr_file_id r ∈ (ur_id <$> uploadResults (ui w)))
  ∧ (∀ fileId, fileId ∈ executingWorkflows (ui w) → fileId ∈ (ur_id <$> uploadResults (ui w)))
  ∧ (∀ fileId, fileId ∈ inFlight w → fileId ∈ (ur_id <$> uploadResults (ui w))).

(** * DifyFileUpload: file validation *)

Section Validation.

Implicit Types (s : string) (file : File).

Lemma split_shape s :
  match afterLastDot s with
  | None => JS.split "." s = [s]
  | Some e => ∃ init, init ≠ [] ∧ JS.split "." s = init ++ [e]
  end.
Proof.
  induction s as [|c r IH]; simpl; [done|].
  destruct (afterLastDot r) as [e|] eqn:He.
  - destruct IH as (init & Hne & ->).
    destruct (decide (c = "."%char)) as [->|Hc].
    + exists (EmptyString :: init). done.
    + destruct init as [|seg init]; [done|].
      exists (String c seg :: init). done.
  - rewrite IH. destruct (decide (c = "."%char)) as [->|Hc]; [|done].
    exists [EmptyString]. done.
Qed.

Lemma pop_split s : JS.pop (JS.split "." s) = Some (default s (afterLastDot s)).
Proof.
  unfold JS.pop. pose proof (split_shape s) as H.
  destruct (afterLastDot s) as [e|]; simpl.
  - destruct H as (init & _ & ->). by rewrite last_snoc.
  - by rewrite H.
Qed.

(** The extension that [validateFile] looks up. *)
Lemma validateFile_extension file :
  validateFile file = None ↔
  JS.toLowerCase (default (file_name file) (afterLastDot (file_name file))) ∈ supportedFormats.
Proof.
  unfold validateFile. rewrite pop_split. simpl.
  set (e := JS.toLowerCase _). unfold JS.includes.
  destruct (JS.isEmpty e) eqn:Hemp; simpl.
  - destruct e; [|done]. split; [done|].
    intros H. apply (bool_decide_pack _) in H. vm_compute in H. destruct H.
  - case_bool_decide; simpl; split; done.
Qed.

(** A name with a ['.'] is judged by the text after its last ['.']. *)
Lemma validateFile_dotted file e :
  afterLastDot (file_name file) = Some e →
  validateFile file = None ↔ JS.toLowerCase e ∈ supportedFormats.
Proof. intros He. by rewrite validateFile_extension, He. Qed.

(** A name without ['.'] is judged as a whole. *)
Lemma validateFile_undotted file :
  afterLastDot (file_name file) = None →
  validateFile file = None ↔ JS.toLowerCase (file_name file) ∈ supportedFormats.
Proof. intros He. by rewrite validateFile_extension, He. Qed.

(** A rejected file always gets the message that lists the formats. *)
Lemma validateFile_message file msg :
  validateFile file = Some msg →
  msg = "サポートされていないファイル形式です。対応形式: " +:+ "png, jpg, jpeg, webp, gif, pdf".
Proof.
  unfold validateFile.
  destruct (JS.toLowerCase <$> JS.pop (JS.split "." (file_name file))) as [e|];
    [destruct (JS.isEmpty e || negb (JS.includes supportedFormats e))|];
    intros [= <-]; reflexivity.
Qed.

End Validation.

Example validateFile_upper_case : validateFile (fileNamed "a.PDF") = None.
Proof. reflexivity. Qed.

Example validateFile_last_segment_only :
  validateFile (fileNamed "photo.pdf.txt") = Some unsupportedFormatMessage
  ∧ validateFile (fileNamed "archive.tar.gif") = None.
Proof. split; reflexivity. Qed.

Example validateFile_no_extension_other_name :
  validateFile (fileNamed "README") = Some unsupportedFormatMessage.
Proof. reflexivity. Qed.

(** C10: [validateFile] does judge a dotted name by the lower-cased text after
    its last ['.'], but a name that has no ['.'] at all is not rejected when the
    whole name is a supported format: [split('.')] then returns the name itself
    as its only segment, so the file named [pdf] passes validation. *)
Theorem validateFile_accepts_bare_format_name :
  afterLastDot "pdf" = None ∧ validateFile (fileNamed "pdf") = None.
Proof. split; reflexivity. Qed.

(** * DifyResultDisplay: compliance statistics *)

Section Statistics.

Implicit Types (judgement : list JudgementItem) (item : JudgementItem)
  (status key : string) (stats : gmap string Obj.stored).

Lemma complianceStats_snoc judgement item :
  complianceStats (judgement ++ [item]) =
  Obj.set (complianceStats judgement) (compliance_status (assessment item))
    (Obj.orZeroPlusOne
       (Obj.get (complianceStats judgement) (compliance_status (assessment item)))).
Proof. unfold complianceStats. by rewrite foldl_snoc. Qed.

Lemma occurrences_snoc status judgement item :
  occurrences status (judgement ++ [item]) =
  occurrences status judgement
  + (if decide (compliance_status (assessment item) = status) then 1 else 0).
Proof.
  unfold occurrences. rewrite filter_app, length_app. f_equal.
  rewrite filter_cons, filter_nil. by case_decide.
Qed.

(** Reading a key that the prototype does not answer sees own properties only. *)
Lemma get_plain stats key :
  key ∉ Obj.prototypeKeys →
  Obj.get stats key = from_option Obj.Own Obj.Undefined (stats !! key)
  ∧ ∀ v, Obj.set stats key v = <[key := v]> stats.
Proof.
  unfold Obj.prototypeKeys. rewrite not_elem_of_cons. intros [Hp Hf].
  unfold Obj.get, Obj.set. split.
  - rewrite !decide_False by done. by destruct (stats !! key).
  - intros v. by rewrite decide_False.
Qed.

(** On such lists every status is bucketed under itself, with the number of
    its occurrences. *)
Lemma complianceStats_lookup judgement status :
  plainStatuses judgement →
  complianceStats judgement !! status =
  match occurrences status judgement with
  | 0 => None
  | S n => Some (Obj.Num (S n))
  end.
Proof.
  induction judgement as [|item judgement IH] using rev_ind; intros Hplain.
  { done. }
  apply Forall_app in Hplain as [Hplain Hitem]. apply (proj1 (Forall_singleton _ _)) in Hitem.
  rewrite complianceStats_snoc, occurrences_snoc.
  set (key := compliance_status (assessment item)) in *.
  destruct (get_plain (complianceStats judgement) key Hitem) as [-> ->].
  destruct (decide (key = status)) as [<-|Hne].
  - rewrite lookup_insert_eq, (IH Hplain).
    destruct (occurrences key judgement) as [|n]; simpl.
    + done.
    + cbn. by rewrite Nat.add_1_r.
  - rewrite lookup_insert_ne, Nat.add_0_r by done. by apply IH.
Qed.

Lemma totalCount_insert_fresh stats key v :
  stats !! key = None → totalCount (<[key := v]> stats) = count v + totalCount stats.
Proof.
  intros Hnone. unfold totalCount.
  rewrite map_fold_insert_L; [done| |done]. intros; lia.
Qed.

Lemma totalCount_insert_present stats key v old :
  stats !! key = Some old →
  totalCount (<[key := v]> stats) + count old = count v + totalCount stats.
Proof.
  intros Hsome.
  rewrite <-(insert_delete_eq stats), totalCount_insert_fresh by apply lookup_delete_eq.
  unfold totalCount at 2.
  rewrite (map_fold_delete_L _ _ key old stats); [fold (totalCount (delete key stats)); lia| |done].
  intros; lia.
Qed.

(** Completeness on lists without prototype keys: the counts sum to the
    number of items. *)
Lemma complianceStats_complete judgement :
  plainStatuses judgement → totalCount (complianceStats judgement) = length judgement.
Proof.
  induction judgement as [|item judgement IH] using rev_ind; intros Hplain.
  { done. }
  pose proof Hplain as Hall.
  apply Forall_app in Hplain as [Hplain Hitem]. apply (proj1 (Forall_singleton _ _)) in Hitem.
  rewrite complianceStats_snoc, length_app. simpl.
  set (key := compliance_status (assessment item)) in *.
  destruct (get_plain (complianceStats judgement) key Hitem) as [-> ->].
  pose proof (complianceStats_lookup judgement key Hplain) as Hkey.
  destruct (occurrences key judgement) as [|n]; rewrite Hkey; simpl.
  - rewrite totalCount_insert_fresh by done. simpl. rewrite (IH Hplain). lia.
  - pose proof (totalCount_insert_present (complianceStats judgement) key
                  (Obj.Num (S n + 1)) _ Hkey) as Hins.
    change (Obj.orZeroPlusOne (Obj.Own (Obj.Num (S n)))) with (Obj.Num (S n + 1)).
    unfold count in Hins. rewrite (IH Hplain) in Hins. lia.
Qed.

Lemma summaryRows_nil : summaryRows [] = ∅.
Proof. unfold summaryRows. simpl. apply fmap_empty. Qed.

End Statistics.

Example complianceStats_known_and_unknown :
  complianceStats
    [itemWithStatus "○"; itemWithStatus "?"; itemWithStatus "○"; itemWithStatus "×"]
  = {[ "○" := Obj.Num 2; "?" := Obj.Num 1; "×" := Obj.Num 1 ]}.
Proof. vm_compute. reflexivity. Qed.

Example summaryRows_single :
  summaryRows [itemWithStatus "○"] = {[ "○" := (Obj.Num 1, Finite 100) ]}.
Proof. vm_compute. reflexivity. Qed.

(** A status that names a function of [Object.prototype] is bucketed, but
    what is stored under it is text, not a count. *)
Example complianceStats_constructor :
  complianceStats [itemWithStatus "constructor"; itemWithStatus "constructor"]
  = {[ "constructor" := Obj.Str "function Object() { [native code] }11" ]}.
Proof. vm_compute. reflexivity. Qed.

(** C2: the reducer counts every item exactly once under its literal status,
    and the counts sum to the number of items, unless a status is a key that
    the accumulator [{}] inherits from [Object.prototype].  At the status
    [__proto__] the read yields the prototype object, the sum is the text
    [[object Object]1], and the write is ignored by the prototype's setter:
    the item is dropped, and the counts of a one-item list sum to 0. *)
Theorem complianceStats_drops_proto_status :
  complianceStats [itemWithStatus "__proto__"] = ∅
  ∧ totalCount (complianceStats [itemWithStatus "__proto__"]) = 0
  ∧ length [itemWithStatus "__proto__"] = 1.
Proof. vm_compute. done. Qed.

(** C8, as stated, fails: for the empty list no percentage is defined, 0 or
    other; and the percentage expression itself yields NaN, not 0, at a zero
    count over a zero length. *)
Lemma empty_judgement_has_no_percentage :
  summaryRows [] !! "○" = None
  ∧ percentage (Obj.Num 0) (length (@nil JudgementItem)) = NaN
  ∧ NaN ≠ Finite 0.
Proof. rewrite summaryRows_nil. done. Qed.

(** C8, amended: [complianceStats] of the empty list is the empty object (no
    status has a count) and nothing is raised; a percentage is computed only
    for a status that has an entry, and then the list is not empty, so the
    summary never divides by zero.  For the empty list no percentage is
    computed at all. *)
Theorem summary_percentage_never_divides_by_zero
    (judgement : list JudgementItem) (status : string) (c : Obj.stored) (p : number) :
  summaryRows judgement !! status = Some (c, p) →
  length judgement ≠ 0
  ∧ p = percentage c (length judgement)
  ∧ complianceStats [] = ∅
  ∧ summaryRows [] = ∅.
Proof.
  intros Hrow. split_and!.
  - intros Hlen. apply nil_length_inv in Hlen. subst judgement.
    by rewrite summaryRows_nil in Hrow.
  - unfold summaryRows in Hrow. rewrite lookup_fmap in Hrow.
    destruct (complianceStats judgement !! status); by simplify_eq/=.
  - done.
  - apply summaryRows_nil.
Qed.

Lemma summary_percentage_never_divides_by_zero_witness :
  summaryRows [itemWithStatus "○"] !! "○" = Some (Obj.Num 1, Finite 100)
  ∧ length [itemWithStatus "○"] ≠ 0
  ∧ Finite 100 = percentage (Obj.Num 1) (length [itemWithStatus "○"])
  ∧ complianceStats [] = ∅
  ∧ summaryRows [] = ∅.
Proof.
  split.
  - vm_compute. reflexivity.
  - apply (summary_percentage_never_divides_by_zero
             [itemWithStatus "○"] "○" (Obj.Num 1) (Finite 100)).
    vm_compute. reflexivity.
Defined.

(** * DifyFileUploadDemo: registry, execution and error slot *)

Section Orchestration.

Implicit Types (s : State) (w : World) (fileId other : string)
  (outcome : FetchOutcome) (now : N) (e : Event).

Lemma isEmpty_true (t : string) : JS.isEmpty t = true ↔ t = EmptyString.
Proof. by destruct t. Qed.

Lemma findUpload_unregistered fileId s :
  fileId ∉ (ur_id <$> uploadResults s) → findUpload fileId s = None.
Proof.
  unfold findUpload. induction (uploadResults s) as [|r l IH]; simpl; [done|].
  rewrite not_elem_of_cons. intros [Hne Hl].
  rewrite bool_decide_eq_false_2 by done. by apply IH.
Qed.

(** A call that passes both checks issues the request, whatever the set of
    executing workflows and the history hold. *)
Lemma executeWorkflow_accepted fileId s :
  credentialGiven s = true → hasFile fileId s = true →
  executeWorkflow fileId s =
    (setError None (setExecutingWorkflows (λ prev, prev ∪ {[fileId]}) s),
     Some {| req_authorization := "Bearer " +:+ workflowApiKey s;
             req_upload_file_id := fileId;
             req_user := userId s |}).
Proof.
  unfold credentialGiven, hasFile, executeWorkflow.
  intros Hkey%negb_true_iff [f Hf]%bool_decide_eq_true.
  by rewrite Hkey, Hf.
Qed.

(** A call that fails a check sets the error message and does nothing else. *)
Lemma executeWorkflow_refused fileId s :
  credentialGiven s && hasFile fileId s = false →
  ∃ message,
    message ∈ [missingApiKeyMessage; fileNotFoundMessage]
    ∧ executeWorkflow fileId s = (setError (Some message) s, None).
Proof.
  unfold credentialGiven, hasFile, executeWorkflow. intros Hno.
  destruct (JS.isEmpty (JS.trim (workflowApiKey s))); simpl in Hno.
  { exists missingApiKeyMessage. split; [set_solver|done]. }
  apply bool_decide_eq_false in Hno.
  destruct (findUpload fileId s ≫= ur_file) as [f|] eqn:Hf.
  { destruct Hno. by exists f. }
  exists fileNotFoundMessage. split; [set_solver|done].
Qed.

(** What the continuation does to the lists and the set. *)
Lemma executeWorkflowSettled_frame fileId outcome now s :
  let s' := executeWorkflowSettled fileId outcome now s in
  apiKey s' = apiKey s ∧ workflowApiKey s' = workflowApiKey s ∧ userId s' = userId s
  ∧ uploadResults s' = uploadResults s
  ∧ executingWorkflows s' = executingWorkflows s ∖ {[fileId]}
  ∧ ∃ record,
      workflowResults s' = record :: workflowResults s
      ∧ wr_file_id record = fileId
      ∧ match tryBlock fileId outcome now with
        | inr workflowResult => record = workflowResult ∧ error s' = error s
        | inl thrown =>
            wr_status record = failed ∧ wr_result record = None
            ∧ wr_error record = Some (errorMessageOf thrown)
            ∧ error s' = Some (errorMessageOf thrown)
        end.
Proof.
  unfold executeWorkflowSettled.
  destruct (tryBlock fileId outcome now) as [thrown|workflowResult] eqn:Htry; simpl.
  - repeat split; eauto 10.
  - repeat split. exists workflowResult. repeat split.
    unfold tryBlock in Htry. repeat case_match; by simplify_eq/=.
Qed.

Lemma tryBlock_completed fileId outcome now record :
  tryBlock fileId outcome now = inr record →
  ∃ payload, outcome = ResponseOk (inr payload)
    ∧ wr_status record = completed ∧ wr_result record = Some payload
    ∧ wr_error record = None.
Proof.
  unfold tryBlock. intros Htry. repeat case_match; simplify_eq/=; eauto.
Qed.

Lemma readModel_after_settled fileId outcome now s record :
  workflowResults (executeWorkflowSettled fileId outcome now s) = record :: workflowResults s →
  wr_file_id record = fileId →
  readModel fileId (executeWorkflowSettled fileId outcome now s)
  = {| pending := false; latest := Some record |}.
Proof.
  intros Hres Hid. unfold readModel, isExecuting, getWorkflowResultForFile.
  destruct (executeWorkflowSettled_frame fileId outcome now s)
    as (_ & _ & _ & _ & -> & _).
  rewrite Hres. simpl. rewrite (bool_decide_eq_true_2 _ Hid).
  f_equal. apply bool_decide_eq_false.
  intros [_ Hnot]%elem_of_difference. apply Hnot. by apply elem_of_singleton.
Qed.

End Orchestration.

Example trim_white_space_only :
  JS.trim (" " +:+ newline +:+ "　") = EmptyString ∧ JS.trim "  app-key " = "app-key".
Proof. split; reflexivity. Qed.

(** The page offers no button for a file whose latest execution completed. *)
Example completed_file_shows_no_button :
  actionCell "f1"
    (executeWorkflowSettled "f1" (ResponseOk (inr succeededPayload)) 1700000000123 pendingState)
  = CompletedChip.
Proof. vm_compute. reflexivity. Qed.

(** C5: a call of [executeWorkflow] with an empty or white-space-only
    credential, or for a file id that is not registered, sets a non-empty
    error message and returns: no request is handed to [fetch], no record is
    added, and nothing but the error slot changes. *)
Theorem invalid_trigger_only_sets_error (fileId : string) (w : World) :
  JS.trim (workflowApiKey (ui w)) = EmptyString
  ∨ fileId ∉ (ur_id <$> uploadResults (ui w)) →
  ∃ s' message,
    executeWorkflow fileId (ui w) = (s', None)
    ∧ step w (ExecuteCalled fileId) = Some {| ui := s'; inFlight := inFlight w |}
    ∧ error s' = Some message ∧ JS.isEmpty message = false
    ∧ sameButError (ui w) s'.
Proof.
  intros Hinvalid.
  assert (credentialGiven (ui w) && hasFile fileId (ui w) = false) as Hno.
  { unfold credentialGiven, hasFile. destruct Hinvalid as [->|Hid]; [done|].
    rewrite (findUpload_unregistered _ _ Hid). apply andb_false_r. }
  destruct (executeWorkflow_refused _ _ Hno) as (message & Hmsg & Hcall).
  exists (setError (Some message) (ui w)), message.
  split_and!; [done|by simpl; rewrite Hcall|done| |done].
  unfold missingApiKeyMessage, fileNotFoundMessage in Hmsg.
  apply list_elem_of_In in Hmsg. simpl in Hmsg. by destruct Hmsg as [<-|[<-|[]]].
Qed.

Lemma invalid_trigger_only_sets_error_witness :
  (∃ s' message,
     executeWorkflow "f1" (setWorkflowApiKey "   " (ui readyWorld)) = (s', None)
     ∧ step {| ui := setWorkflowApiKey "   " (ui readyWorld); inFlight := [] |}
         (ExecuteCalled "f1")
       = Some {| ui := s'; inFlight := [] |}
     ∧ error s' = Some message ∧ JS.isEmpty message = false
     ∧ sameButError (setWorkflowApiKey "   " (ui readyWorld)) s')
  ∧ (∃ s' message,
       executeWorkflow "ghost" (ui readyWorld) = (s', None)
       ∧ step readyWorld (ExecuteCalled "ghost") = Some {| ui := s'; inFlight := [] |}
       ∧ error s' = Some message ∧ JS.isEmpty message = false
       ∧ sameButError (ui readyWorld) s').
Proof.
  split.
  - apply (invalid_trigger_only_sets_error "f1"
             {| ui := setWorkflowApiKey "   " (ui readyWorld); inFlight := [] |}).
    left. vm_compute. reflexivity.
  - apply (invalid_trigger_only_sets_error "ghost" readyWorld).
    right. apply (bool_decide_unpack _). vm_compute. exact I.
Defined.

(** C7, as stated, fails: registering a second upload under an id that is
    registered already is not rejected; the list then holds two entries with
    that id. *)
Lemma same_id_registered_twice :
  ur_id <$> uploadResults
              (handleUploadSuccess (uploadOf "f1") (fileNamed "other.pdf")
                 (handleUploadSuccess (uploadOf "f1") docPdf initialState))
  = ["f1"; "f1"].
Proof. reflexivity. Qed.

(** C7, amended: [handleUploadSuccess] puts the upload, with its file
    attached, in front of the list whatever ids the list holds, so the list is
    ordered most recent first and may hold an id more than once; nothing is
    rejected.  A lookup by id then finds the entry registered last. *)
Theorem register_prepends_unconditionally (result : UploadResult) (file : File) (s : State) :
  ∃ entry,
    uploadResults (handleUploadSuccess result file s) = entry :: uploadResults s
    ∧ ur_id entry = ur_id result
    ∧ ur_file entry = Some file
    ∧ findUpload (ur_id result) (handleUploadSuccess result file s) = Some entry
    ∧ workflowResults (handleUploadSuccess result file s) = workflowResults s
    ∧ executingWorkflows (handleUploadSuccess result file s) = executingWorkflows s.
Proof.
  eexists. split_and!; try reflexivity.
  unfold findUpload. simpl. by rewrite bool_decide_eq_true_2.
Qed.

(** C3, as stated, fails: a response whose payload says [failed] is recorded
    as a [completed] execution. *)
Lemma failed_payload_is_recorded_completed :
  (wr_status <$> head (workflowResults
     (executeWorkflowSettled "f1" (ResponseOk (inr failedPayload)) 1700000000123
        pendingState)))
  = Some completed.
Proof. reflexivity. Qed.

(** C3, amended: whenever the response is [ok] and its body parses to a value
    other than [null], the execution is recorded as [completed] with the
    parsed payload attached, whatever status the payload carries; the error
    slot is left as it is and the file is no longer pending.  The status of
    the payload is not read by [executeWorkflow]. *)
Theorem ok_response_is_recorded_completed
    (fileId : string) (payload : JS.json) (now : N) (s : State) :
  payload ≠ JS.JNull →
  let s' := executeWorkflowSettled fileId (ResponseOk (inr payload)) now s in
  ∃ workflowResult,
    workflowResults s' = workflowResult :: workflowResults s
    ∧ wr_file_id workflowResult = fileId
    ∧ wr_status workflowResult = completed
    ∧ wr_result workflowResult = Some payload
    ∧ wr_error workflowResult = None
    ∧ error s' = error s
    ∧ readModel fileId s' = {| pending := false; latest := Some workflowResult |}.
Proof.
  intros Hpayload s'.
  destruct (executeWorkflowSettled_frame fileId (ResponseOk (inr payload)) now s)
    as (_ & _ & _ & _ & _ & record & Hres & Hid & Htry).
  destruct (tryBlock fileId (ResponseOk (inr payload)) now) as [thrown|r] eqn:E.
  { exfalso. simpl in E. destruct payload; simplify_eq/=. }
  destruct Htry as [-> Herror].
  destruct (tryBlock_completed _ _ _ _ E) as (payload' & [= <-] & Hst & Hpl & Herr).
  exists r. split_and!; try done.
  by apply readModel_after_settled.
Qed.

Lemma ok_response_is_recorded_completed_witness :
  failedPayload ≠ JS.JNull
  ∧ ∃ workflowResult,
      workflowResults
        (executeWorkflowSettled "f1" (ResponseOk (inr failedPayload)) 1700000000123 pendingState)
      = workflowResult :: workflowResults pendingState
      ∧ wr_file_id workflowResult = "f1"
      ∧ wr_status workflowResult = completed
      ∧ wr_result workflowResult = Some failedPayload
      ∧ wr_error workflowResult = None
      ∧ error (executeWorkflowSettled "f1" (ResponseOk (inr failedPayload)) 1700000000123
                 pendingState)
        = error pendingState
      ∧ readModel "f1"
          (executeWorkflowSettled "f1" (ResponseOk (inr failedPayload)) 1700000000123
             pendingState)
        = {| pending := false; latest := Some workflowResult |}.
Proof.
  split.
  - discriminate.
  - apply (ok_response_is_recorded_completed "f1" failedPayload 1700000000123 pendingState).
    discriminate.
Defined.

(** The chip of the result display is where the payload's status shows. *)
Lemma statusChipColor_success (status : string) :
  statusChipColor status = "success" ↔ status = "succeeded".
Proof. unfold statusChipColor. case_decide; naive_solver. Qed.

(** C4: when the gateway call fails (the fetch rejects, the response is not
    ok, or the body of an ok response does not parse), a [failed] record with
    a non-empty error message is put in front of the history for that file
    id, the file id leaves the set of executing workflows, so the read model
    reports [pending = false] with that record as the latest, and a further
    [executeWorkflow] for the same file id issues its request and makes the
    file pending again.  The message of an error that the runtime throws is
    taken to be non-empty. *)
Theorem gateway_failure_is_recorded_and_retry_accepted
    (fileId : string) (outcome : FetchOutcome) (now : N) (s : State) :
  gatewayFailed outcome = true →
  runtimeErrorsDescribed outcome = true →
  credentialGiven s = true →
  hasFile fileId s = true →
  let s' := executeWorkflowSettled fileId outcome now s in
  ∃ failedResult message request,
    workflowResults s' = failedResult :: workflowResults s
    ∧ wr_file_id failedResult = fileId
    ∧ wr_status failedResult = failed
    ∧ wr_error failedResult = Some message
    ∧ JS.isEmpty message = false
    ∧ error s' = Some message
    ∧ readModel fileId s' = {| pending := false; latest := Some failedResult |}
    ∧ (executeWorkflow fileId s').2 = Some request
    ∧ req_upload_file_id request = fileId
    ∧ pending (readModel fileId (executeWorkflow fileId s').1) = true.
Proof.
  intros Hfailed Hdescribed Hkey Hfile s'.
  destruct (executeWorkflowSettled_frame fileId outcome now s)
    as (_ & Hkey' & _ & Huploads & _ & record & Hres & Hid & Htry).
  fold s' in Hkey', Huploads, Hres, Htry.
  assert (∃ thrown, tryBlock fileId outcome now = inl thrown
                    ∧ JS.isEmpty (errorMessageOf thrown) = false)
    as (thrown & E & Hmsg).
  { unfold runtimeErrorsDescribed in Hdescribed.
    destruct outcome as [t|status statusText [t|body]|[t|payload]];
      simplify_eq/=; try (eexists; split; [reflexivity|]);
      try (destruct t as [[|c m]|]; simplify_eq/=; done).
    done. }
  rewrite E in Htry. destruct Htry as (Hst & _ & Herr & Herror).
  assert (credentialGiven s' = true) as Hkey2.
  { unfold credentialGiven. rewrite Hkey'. exact Hkey. }
  assert (hasFile fileId s' = true) as Hfile2.
  { unfold hasFile, findUpload. rewrite Huploads. exact Hfile. }
  eexists record, (errorMessageOf thrown), _.
  rewrite (executeWorkflow_accepted _ _ Hkey2 Hfile2). simpl.
  split_and!; try done.
  - by apply readModel_after_settled.
  - unfold isExecuting. simpl. apply bool_decide_eq_true.
    apply elem_of_union_r. by apply elem_of_singleton.
Qed.

Lemma gateway_failure_is_recorded_and_retry_accepted_witness :
  gatewayFailed (ResponseNotOk 502 "Bad Gateway" (inr "upstream down")) = true
  ∧ runtimeErrorsDescribed (ResponseNotOk 502 "Bad Gateway" (inr "upstream down")) = true
  ∧ credentialGiven pendingState = true
  ∧ hasFile "f1" pendingState = true
  ∧ ∃ failedResult message request,
      workflowResults
        (executeWorkflowSettled "f1" (ResponseNotOk 502 "Bad Gateway" (inr "upstream down"))
           1700000000123 pendingState)
      = failedResult :: workflowResults pendingState
      ∧ wr_file_id failedResult = "f1"
      ∧ wr_status failedResult = failed
      ∧ wr_error failedResult = Some message
      ∧ JS.isEmpty message = false
      ∧ error (executeWorkflowSettled "f1"
                 (ResponseNotOk 502 "Bad Gateway" (inr "upstream down"))
                 1700000000123 pendingState)
        = Some message
      ∧ readModel "f1"
          (executeWorkflowSettled "f1" (ResponseNotOk 502 "Bad Gateway" (inr "upstream down"))
             1700000000123 pendingState)
        = {| pending := false; latest := Some failedResult |}
      ∧ (executeWorkflow "f1"
           (executeWorkflowSettled "f1" (ResponseNotOk 502 "Bad Gateway" (inr "upstream down"))
              1700000000123 pendingState)).2
        = Some request
      ∧ req_upload_file_id request = "f1"
      ∧ pending
          (readModel "f1"
             (executeWorkflow "f1"
                (executeWorkflowSettled "f1"
                   (ResponseNotOk 502 "Bad Gateway" (inr "upstream down"))
                   1700000000123 pendingState)).1)
        = true.
Proof.
  split_and!; [reflexivity | reflexivity | vm_compute; reflexivity | vm_compute; reflexivity |].
  apply (gateway_failure_is_recorded_and_retry_accepted "f1"
           (ResponseNotOk 502 "Bad Gateway" (inr "upstream down")) 1700000000123 pendingState);
    vm_compute; reflexivity.
Defined.

(** ** Runs of the transition system *)

Section Runs.

Implicit Types (s : State) (w : World) (fileId other : string)
  (events : list Event) (e : Event) (l : list string).

Lemma elem_of_removeOne fileId other l :
  NoDup l → other ∈ removeOne fileId l ↔ other ∈ l ∧ other ≠ fileId.
Proof.
  induction 1 as [|y l Hy Hl IH]; simpl.
  { rewrite elem_of_nil. tauto. }
  destruct (decide (fileId = y)) as [->|Hne].
  - rewrite elem_of_cons. split.
    + intros Hin. split; [by right|]. by intros ->.
    + by intros [[->|Hin] Hne].
  - rewrite !elem_of_cons, IH. split.
    + intros [->|[Hin Hne']]; split; auto.
    + intros [[->|Hin] Hne']; auto.
Qed.

Lemma NoDup_removeOne fileId l : NoDup l → NoDup (removeOne fileId l).
Proof.
  induction 1 as [|y l Hy Hl IH]; simpl; [constructor|].
  destruct (decide (fileId = y)); [done|].
  constructor; [|done]. rewrite elem_of_removeOne by done. tauto.
Qed.

(** The action cell of a pending file carries no button. *)
Lemma pending_not_offered fileId s :
  fileId ∈ executingWorkflows s → offersExecute (actionCell fileId s) = false.
Proof.
  intros Hin. unfold actionCell, readModel, isExecuting. simpl.
  by rewrite bool_decide_eq_true_2.
Qed.

Lemma offered_not_pending fileId w :
  offered w (ExecuteCalled fileId) = true → fileId ∉ executingWorkflows (ui w).
Proof.
  simpl. intros [_ Hcell]%andb_true_iff Hin.
  by rewrite pending_not_offered in Hcell.
Qed.

Lemma step_preserves_oneFetchPerFile w e w' :
  oneFetchPerFile w → offered w e = true → step w e = Some w' → oneFetchPerFile w'.
Proof.
  intros [Hnodup Hagree] Hoffered Hstep.
  destruct e as [result file|message| | | | |fileId|fileId outcome now];
    simpl in Hstep; try (simplify_eq; by split).
  - (* ExecuteCalled *)
    pose proof (offered_not_pending _ _ Hoffered) as Hfresh.
    destruct (credentialGiven (ui w) && hasFile fileId (ui w)) eqn:Hvalid.
    + apply andb_true_iff in Hvalid as [Hkey Hfile].
      rewrite (executeWorkflow_accepted _ _ Hkey Hfile) in Hstep. simplify_eq.
      split; simpl.
      * constructor; [|done]. by rewrite Hagree.
      * intros other. rewrite elem_of_cons, elem_of_union, elem_of_singleton, Hagree. tauto.
    + destruct (executeWorkflow_refused _ _ Hvalid) as (message & _ & Hcall).
      rewrite Hcall in Hstep. simplify_eq. by split.
  - (* FetchSettled *)
    case_decide as Hin; [|done]. simplify_eq.
    destruct (executeWorkflowSettled_frame fileId outcome now (ui w))
      as (_ & _ & _ & _ & Hset & _).
    split; cbn [ui inFlight].
    + by apply NoDup_removeOne.
    + intros other. rewrite Hset, elem_of_removeOne by done.
      rewrite elem_of_difference, elem_of_singleton, Hagree. tauto.
Qed.

Lemma runOffered_preserves_oneFetchPerFile events w w' :
  oneFetchPerFile w → runOffered w events = Some w' → oneFetchPerFile w'.
Proof.
  revert w. induction events as [|e events IH]; simpl; intros w Hinv Hrun.
  { by simplify_eq. }
  destruct (offered w e) eqn:Hoffered; [|done].
  destruct (step w e) as [w1|] eqn:Hstep; [|done]. simpl in Hrun.
  eapply IH; [|done]. by eapply step_preserves_oneFetchPerFile.
Qed.

(** Each step keeps what the two lists hold and adds in front. *)
Lemma step_appends w e w' :
  step w e = Some w' →
  uploadResults (ui w) `suffix_of` uploadResults (ui w')
  ∧ workflowResults (ui w) `suffix_of` workflowResults (ui w').
Proof.
  intros Hstep.
  destruct e as [result file|message| | | | |fileId|fileId outcome now];
    simpl in Hstep; try (simplify_eq; by split).
  - simplify_eq. simpl. split; [by apply suffix_cons_r|done].
  - destruct (credentialGiven (ui w) && hasFile fileId (ui w)) eqn:Hvalid.
    + apply andb_true_iff in Hvalid as [Hkey Hfile].
      rewrite (executeWorkflow_accepted _ _ Hkey Hfile) in Hstep. by simplify_eq.
    + destruct (executeWorkflow_refused _ _ Hvalid) as (message & _ & Hcall).
      rewrite Hcall in Hstep. by simplify_eq.
  - case_decide; [|done]. simplify_eq. cbn [ui].
    destruct (executeWorkflowSettled_frame fileId outcome now (ui w))
      as (_ & _ & _ & -> & _ & record & -> & _).
    split; [done|by apply suffix_cons_r].
Qed.

Lemma run_appends events w w' :
  run w events = Some w' →
  uploadResults (ui w) `suffix_of` uploadResults (ui w')
  ∧ workflowResults (ui w) `suffix_of` workflowResults (ui w').
Proof.
  revert w. induction events as [|e events IH]; simpl; intros w Hrun.
  { by simplify_eq. }
  destruct (step w e) as [w1|] eqn:Hstep; [|done]. simpl in Hrun.
  destruct (step_appends _ _ _ Hstep) as [Hu Hr].
  destruct (IH _ Hrun) as [Hu' Hr'].
  split; by etrans.
Qed.

End Runs.

Section Independence.

Implicit Types (s : State) (fileId other : string).

(** Calling [executeWorkflow] for one file leaves the pending flag of every
    other file as it is. *)
Lemma executeWorkflow_other_pending fileId other s :
  other ≠ fileId →
  isExecuting other (executeWorkflow fileId s).1 = isExecuting other s.
Proof.
  intros Hne. destruct (credentialGiven s && hasFile fileId s) eqn:Hvalid.
  - apply andb_true_iff in Hvalid as [Hkey Hfile].
    rewrite (executeWorkflow_accepted _ _ Hkey Hfile). unfold isExecuting. simpl.
    apply bool_decide_ext. rewrite elem_of_union, elem_of_singleton. tauto.
  - destruct (executeWorkflow_refused _ _ Hvalid) as (message & _ & ->). done.
Qed.

(** The end of an execution for one file leaves the read model of every other
    file as it is. *)
Lemma executeWorkflowSettled_other fileId other outcome now s :
  other ≠ fileId →
  readModel other (executeWorkflowSettled fileId outcome now s) = readModel other s.
Proof.
  intros Hne. unfold readModel, isExecuting, getWorkflowResultForFile.
  destruct (executeWorkflowSettled_frame fileId outcome now s)
    as (_ & _ & _ & _ & -> & record & -> & Hid & _).
  f_equal.
  - apply bool_decide_ext. rewrite elem_of_difference, elem_of_singleton. tauto.
  - cbn. by rewrite bool_decide_eq_false_2 by congruence.
Qed.

End Independence.

(** C1, as stated, fails: [executeWorkflow] called for a file that is pending
    is not rejected; it hands a second request to [fetch], and two fetches for
    the same file are in flight. *)
Lemma second_call_while_pending_issues_second_fetch :
  pending (readModel "f1" pendingState) = true
  ∧ (executeWorkflow "f1" pendingState).2
    = Some {| req_authorization := "Bearer app-key"; req_upload_file_id := "f1";
              req_user := "user-123" |}
  ∧ (inFlight <$> run readyWorld [ExecuteCalled "f1"; ExecuteCalled "f1"])
    = Some ["f1"; "f1"].
Proof. vm_compute. done. Qed.

(** C1, amended: [executeWorkflow] has no check of its own for a pending file:
    whenever the credential is given and the file is registered it adds the
    file id to the executing set and issues its request.  What keeps a file
    from having two executions in flight is the page: the action cell of a
    pending file carries no execute button.  So in every run from the initial
    state in which [executeWorkflow] is called through an offered button only,
    no file id has two fetches in flight, and the fetches in flight are the
    executing set.  Executions of different files do not interfere: a call or
    the end of an execution for one file leaves the pending flag and the
    latest record of any other file as they are. *)
Theorem offered_runs_keep_one_fetch_per_file (events : list Event) (w : World) :
  runOffered initialWorld events = Some w →
  oneFetchPerFile w
  ∧ (∀ fileId, fileId ∈ inFlight w → offered w (ExecuteCalled fileId) = false)
  ∧ (∀ fileId,
       credentialGiven (ui w) = true → hasFile fileId (ui w) = true →
       ∃ request,
         executeWorkflow fileId (ui w)
         = (setError None (setExecutingWorkflows (λ prev, prev ∪ {[fileId]}) (ui w)),
            Some request))
  ∧ (∀ fileId other,
       other ≠ fileId →
       isExecuting other (executeWorkflow fileId (ui w)).1 = isExecuting other (ui w)
       ∧ ∀ outcome now,
           readModel other (executeWorkflowSettled fileId outcome now (ui w))
           = readModel other (ui w)).
Proof.
  intros Hrun.
  assert (oneFetchPerFile w) as Hinv.
  { eapply runOffered_preserves_oneFetchPerFile; [|exact Hrun].
    split; [constructor|]. intros fileId. simpl. by rewrite elem_of_nil, elem_of_empty. }
  split_and!.
  - exact Hinv.
  - intros fileId Hin. destruct Hinv as [_ Hagree]. apply Hagree in Hin.
    simpl. rewrite (pending_not_offered _ _ Hin). apply andb_false_r.
  - intros fileId Hkey Hfile. eexists. by apply executeWorkflow_accepted.
  - intros fileId other Hne. split.
    + by apply executeWorkflow_other_pending.
    + intros outcome now. by apply executeWorkflowSettled_other.
Qed.

Lemma offered_runs_keep_one_fetch_per_file_witness :
  runOffered initialWorld
    [UploadSucceeded (uploadOf "f1") docPdf; UploadSucceeded (uploadOf "f2") docPdf;
     WorkflowApiKeyTyped "app-key"; ExecuteCalled "f1"; ExecuteCalled "f2"]
  = Some {| ui := (executeWorkflow "f2"
                     (executeWorkflow "f1"
                        (setWorkflowApiKey "app-key"
                           (handleUploadSuccess (uploadOf "f2") docPdf
                              (handleUploadSuccess (uploadOf "f1") docPdf initialState)))).1).1;
            inFlight := ["f2"; "f1"] |}
  ∧ runOffered readyWorld [ExecuteCalled "f1"; ExecuteCalled "f1"] = None
  ∧ oneFetchPerFile
      {| ui := (executeWorkflow "f2"
                  (executeWorkflow "f1"
                     (setWorkflowApiKey "app-key"
                        (handleUploadSuccess (uploadOf "f2") docPdf
                           (handleUploadSuccess (uploadOf "f1") docPdf initialState)))).1).1;
         inFlight := ["f2"; "f1"] |}.
Proof.
  split_and!.
  - vm_compute. reflexivity.
  - vm_compute. reflexivity.
  - apply (offered_runs_keep_one_fetch_per_file
             [UploadSucceeded (uploadOf "f1") docPdf; UploadSucceeded (uploadOf "f2") docPdf;
              WorkflowApiKeyTyped "app-key"; ExecuteCalled "f1"; ExecuteCalled "f2"]).
    vm_compute. reflexivity.
Defined.

(** C6: the two histories are append-only.  Along every run the uploads and
    the execution records that were there stay, unchanged and in place, with
    the new ones in front.  The end of an execution, successful or failed,
    adds exactly one record for its file and touches no upload.  A new
    execution is never barred by the history: after an execution has ended,
    in success or in failure, [executeWorkflow] for the same file issues its
    request again (the credential being given and the file registered), and
    whether it does never depends on the records. *)
Theorem history_is_append_only
    (w w' : World) (events : list Event) (fileId : string) :
  run w events = Some w' →
  credentialGiven (ui w') = true →
  hasFile fileId (ui w') = true →
  uploadResults (ui w) `suffix_of` uploadResults (ui w')
  ∧ workflowResults (ui w) `suffix_of` workflowResults (ui w')
  ∧ (∀ outcome now,
       ∃ record,
         workflowResults (executeWorkflowSettled fileId outcome now (ui w'))
         = record :: workflowResults (ui w')
         ∧ wr_file_id record = fileId
         ∧ (wr_status record = completed ∨ wr_status record = failed)
         ∧ uploadResults (executeWorkflowSettled fileId outcome now (ui w'))
           = uploadResults (ui w')
         ∧ ∃ request,
             (executeWorkflow fileId (executeWorkflowSettled fileId outcome now (ui w'))).2
             = Some request)
  ∧ (∀ f, (executeWorkflow fileId (setWorkflowResults f (ui w'))).2
          = (executeWorkflow fileId (ui w')).2).
Proof.
  intros Hrun Hkey Hfile.
  destruct (run_appends _ _ _ Hrun) as [Hu Hr].
  split_and!; [done|done| |].
  2:{ intros f. unfold executeWorkflow, findUpload. cbn [workflowApiKey uploadResults setWorkflowResults].
      destruct (JS.isEmpty _); [done|]. by destruct (_ ≫= ur_file). }
  intros outcome now.
  destruct (executeWorkflowSettled_frame fileId outcome now (ui w'))
    as (_ & Hkey' & _ & Huploads & _ & record & Hres & Hid & Htry).
  exists record. split_and!; [done|done| |done|].
  - destruct (tryBlock fileId outcome now) as [thrown|r] eqn:E.
    + right. by destruct Htry.
    + left. destruct Htry as [-> _].
      by destruct (tryBlock_completed _ _ _ _ E) as (payload & _ & Hst & _).
  - eexists. rewrite executeWorkflow_accepted; [done| |].
    + unfold credentialGiven. by rewrite Hkey'.
    + unfold hasFile, findUpload. by rewrite Huploads.
Qed.

Lemma history_is_append_only_witness :
  run readyWorld
    [ExecuteCalled "f1";
     FetchSettled "f1" (FetchRejected (JS.ThrownError "Failed to fetch")) 1700000000123]
  = Some {| ui := executeWorkflowSettled "f1"
                    (FetchRejected (JS.ThrownError "Failed to fetch")) 1700000000123
                    pendingState;
            inFlight := [] |}
  ∧ uploadResults (ui readyWorld)
    `suffix_of` uploadResults
                  (executeWorkflowSettled "f1"
                     (FetchRejected (JS.ThrownError "Failed to fetch")) 1700000000123
                     pendingState)
  ∧ ∃ request,
      (executeWorkflow "f1"
         (executeWorkflowSettled "f1" (ResponseOk (inr succeededPayload)) 1700000000456
            (executeWorkflowSettled "f1"
               (FetchRejected (JS.ThrownError "Failed to fetch")) 1700000000123
               pendingState))).2
      = Some request.
Proof.
  pose proof (history_is_append_only readyWorld
                {| ui := executeWorkflowSettled "f1"
                           (FetchRejected (JS.ThrownError "Failed to fetch")) 1700000000123
                           pendingState;
                   inFlight := [] |}
                [ExecuteCalled "f1";
                 FetchSettled "f1" (FetchRejected (JS.ThrownError "Failed to fetch"))
                   1700000000123]
                "f1") as H.
  assert (run readyWorld
            [ExecuteCalled "f1";
             FetchSettled "f1" (FetchRejected (JS.ThrownError "Failed to fetch"))
               1700000000123]
          = Some {| ui := executeWorkflowSettled "f1"
                            (FetchRejected (JS.ThrownError "Failed to fetch"))
                            1700000000123 pendingState;
                    inFlight := [] |}) as Hrun.
  { vm_compute. reflexivity. }
  destruct (H Hrun ltac:(vm_compute; reflexivity) ltac:(vm_compute; reflexivity))
    as (Hu & _ & Hsettle & _).
  split_and!; [exact Hrun|exact Hu|].
  destruct (Hsettle (ResponseOk (inr succeededPayload)) 1700000000456%N)
    as (_ & _ & _ & _ & _ & Hrequest).
  exact Hrequest.
Defined.

(** C9, as stated, fails: the error message is cleared by closing the alert,
    which is no successful action, and it is still there after an execution
    has ended successfully. *)
Lemma error_cleared_by_close_and_kept_after_success :
  error (handleUploadError "boom" pendingState) = Some "boom"
  ∧ error (closeAlert (handleUploadError "boom" pendingState)) = None
  ∧ error (executeWorkflowSettled "f1" (ResponseOk (inr succeededPayload)) 1700000000123
             (handleUploadError "boom" pendingState))
    = Some "boom".
Proof. vm_compute. done. Qed.

(** C9, amended: the error message is one slot, which a new error overwrites.
    It is cleared by exactly three events: an upload that succeeds, the alert
    being closed, and a call of [executeWorkflow] that passes its two checks
    (at the start of the execution, not at its end); no other event empties
    it, and the end of an execution leaves it alone unless the execution
    failed.  Records stay in the history, and a file whose latest record is
    [failed] and which is not executing shows the retry button. *)
Theorem error_slot_cleared_exactly_by (w : World) (e : Event) (w' : World) :
  step w e = Some w' →
  (clearsError w e = true → error (ui w') = None)
  ∧ (clearsError w e = false → error (ui w') = None → error (ui w) = None)
  ∧ (∀ message, e = UploadFailed message → error (ui w') = Some message)
  ∧ (∀ record, record ∈ workflowResults (ui w) → record ∈ workflowResults (ui w'))
  ∧ (∀ fileId record,
       readModel fileId (ui w') = {| pending := false; latest := Some record |} →
       wr_status record = failed →
       actionCell fileId (ui w') = FailedChipWithRetry).
Proof.
  intros Hstep. split_and!.
  - destruct e as [result file|message| | | | |fileId|fileId outcome now];
      simpl in *; try done; try (by simplify_eq).
    intros [Hkey Hfile]%andb_true_iff.
    rewrite (executeWorkflow_accepted _ _ Hkey Hfile) in Hstep. by simplify_eq.
  - destruct e as [result file|message| | | | |fileId|fileId outcome now];
      simpl in *; try done; try (by simplify_eq).
    + intros Hvalid.
      destruct (executeWorkflow_refused _ _ Hvalid) as (message & _ & Hcall).
      rewrite Hcall in Hstep. by simplify_eq.
    + intros _. case_decide; [|done]. simplify_eq. cbn [ui].
      destruct (executeWorkflowSettled_frame fileId outcome now (ui w))
        as (_ & _ & _ & _ & _ & record & _ & _ & Htry).
      destruct (tryBlock fileId outcome now).
      * destruct Htry as (_ & _ & _ & ->). done.
      * destruct Htry as [_ ->]. done.
  - intros message ->. simpl in Hstep. by simplify_eq.
  - intros record Hin. destruct (step_appends _ _ _ Hstep) as [_ [newer ->]].
    apply elem_of_app. by right.
  - intros fileId record Hmodel Hfailed. unfold actionCell. rewrite Hmodel. simpl. by rewrite Hfailed.
Qed.

Lemma error_slot_cleared_exactly_by_witness :
  step {| ui := handleUploadError "boom" pendingState; inFlight := ["f1"] |} AlertClosed
  = Some {| ui := closeAlert (handleUploadError "boom" pendingState); inFlight := ["f1"] |}
  ∧ error (handleUploadError "boom" pendingState) = Some "boom"
  ∧ error (closeAlert (handleUploadError "boom" pendingState)) = None.
Proof.
  split_and!; [reflexivity|reflexivity|].
  apply (proj1 (error_slot_cleared_exactly_by
                  {| ui := handleUploadError "boom" pendingState; inFlight := ["f1"] |}
                  AlertClosed
                  {| ui := closeAlert (handleUploadError "boom" pendingState);
                     inFlight := ["f1"] |}
                  eq_refl)).
  reflexivity.
Defined.

(** * Further properties of the three components *)

(** ** DifyFileUpload: validation *)

Section ValidationMore.

Implicit Types (s stem e : string) (file : File).

Lemma append_cons (c : ascii) s e : String c s +:+ e = String c (s +:+ e).
Proof. reflexivity. Qed.

Lemma append_assoc s e (t : string) : (s +:+ e) +:+ t = s +:+ (e +:+ t).
Proof. induction s as [|c s IH]; [done|]. by rewrite !append_cons, IH. Qed.

Lemma toLowerCaseChar_dot (c : ascii) :
  bool_decide (JS.toLowerCaseChar c = "."%char) = bool_decide (c = "."%char).
Proof. destruct c as [[] [] [] [] [] [] [] []]; vm_compute; reflexivity. Qed.

Lemma afterLastDot_toLowerCase s :
  afterLastDot (JS.toLowerCase s) = JS.toLowerCase <$> afterLastDot s.
Proof.
  induction s as [|c s IH]; [done|]. simpl. rewrite IH.
  destruct (afterLastDot s) as [e|]; [done|]. simpl.
  pose proof (toLowerCaseChar_dot c) as Hdot.
  destruct (decide (c = "."%char)) as [->|Hc].
  - by rewrite decide_True.
  - rewrite (bool_decide_eq_false_2 _ Hc) in Hdot.
    apply bool_decide_eq_false in Hdot. by rewrite decide_False.
Qed.

(** The lower-cased last segment, on which alone the verdict depends. *)
Lemma validateFile_unfold file :
  validateFile file =
  if JS.includes supportedFormats
       (JS.toLowerCase (default (file_name file) (afterLastDot (file_name file))))
  then None else Some unsupportedFormatMessage.
Proof.
  destruct (validateFile file) as [msg|] eqn:Hv.
  - assert (validateFile file ≠ None) as Hne by (by rewrite Hv).
    rewrite validateFile_extension in Hne. unfold JS.includes.
    rewrite bool_decide_eq_false_2 by done.
    f_equal. unfold validateFile in Hv. repeat case_match; by simplify_eq.
  - apply validateFile_extension in Hv. unfold JS.includes.
    by rewrite bool_decide_eq_true_2.
Qed.

Lemma lastSegment_toLowerCase s :
  JS.toLowerCase (default s (afterLastDot s))
  = default (JS.toLowerCase s) (afterLastDot (JS.toLowerCase s)).
Proof. rewrite afterLastDot_toLowerCase. by destruct (afterLastDot s). Qed.

Lemma afterLastDot_suffix stem e :
  afterLastDot e = None → afterLastDot (stem +:+ "." +:+ e) = Some e.
Proof.
  intros He. induction stem as [|c stem IH].
  - change (afterLastDot (String "."%char e) = Some e). simpl. by rewrite He.
  - rewrite append_cons. simpl. by rewrite IH.
Qed.

Lemma supported_has_no_dot e :
  JS.toLowerCase e ∈ supportedFormats → afterLastDot e = None.
Proof.
  intros Hin.
  assert (afterLastDot (JS.toLowerCase e) = None) as Hnone.
  { revert Hin. generalize (JS.toLowerCase e). intros t Ht.
    apply list_elem_of_In in Ht. simpl in Ht.
    destruct Ht as [<-|[<-|[<-|[<-|[<-|[<-|[]]]]]]]; reflexivity. }
  rewrite afterLastDot_toLowerCase in Hnone. by destruct (afterLastDot e).
Qed.

End ValidationMore.

(** X1: the verdict of [validateFile] does not depend on the case of the
    letters A-Z of the name: two files whose names lower-case to the same
    text are both accepted or both rejected. *)
Theorem validateFile_ignores_case (file file' : File) :
  JS.toLowerCase (file_name file) = JS.toLowerCase (file_name file') →
  validateFile file = validateFile file'.
Proof.
  intros Hsame. by rewrite !validateFile_unfold, !lastSegment_toLowerCase, Hsame.
Qed.

Lemma validateFile_ignores_case_witness :
  JS.toLowerCase (file_name (fileNamed "Scan.JPeG"))
  = JS.toLowerCase (file_name (fileNamed "scan.jpeg"))
  ∧ validateFile (fileNamed "Scan.JPeG") = validateFile (fileNamed "scan.jpeg")
  ∧ validateFile (fileNamed "scan.jpeg") = None.
Proof.
  split_and!; [reflexivity| |reflexivity].
  apply (validateFile_ignores_case (fileNamed "Scan.JPeG") (fileNamed "scan.jpeg")).
  reflexivity.
Defined.

(** X2: whatever stands in front of it, a name that ends in ['.'] and a
    supported format, in any case of letters, is accepted. *)
Theorem validateFile_accepts_supported_suffix (file : File) (stem e : string) :
  file_name file = stem +:+ "." +:+ e →
  JS.toLowerCase e ∈ supportedFormats →
  validateFile file = None.
Proof.
  intros Hname He. apply validateFile_extension.
  by rewrite Hname, (afterLastDot_suffix _ _ (supported_has_no_dot _ He)).
Qed.

Lemma validateFile_accepts_supported_suffix_witness :
  file_name (fileNamed "2024.report.v2.WebP") = "2024.report.v2" +:+ "." +:+ "WebP"
  ∧ JS.toLowerCase "WebP" ∈ supportedFormats
  ∧ validateFile (fileNamed "2024.report.v2.WebP") = None.
Proof.
  assert (JS.toLowerCase "WebP" ∈ supportedFormats) as Hin.
  { apply (bool_decide_unpack _). vm_compute. exact I. }
  split_and!; [reflexivity|exact Hin|].
  apply (validateFile_accepts_supported_suffix
           (fileNamed "2024.report.v2.WebP") "2024.report.v2" "WebP");
    [reflexivity|exact Hin].
Defined.

(** X3: a name that ends in ['.'], such as the name of a file whose extension
    is empty, is rejected with the message that lists the formats, whatever
    stands in front of the ['.']. *)
Theorem validateFile_rejects_trailing_dot (file : File) (stem : string) :
  file_name file = stem +:+ "." →
  validateFile file = Some unsupportedFormatMessage.
Proof.
  intros Hname. rewrite validateFile_unfold, Hname.
  change (stem +:+ ".") with (stem +:+ "." +:+ EmptyString).
  by rewrite (afterLastDot_suffix stem EmptyString eq_refl).
Qed.

Lemma validateFile_rejects_trailing_dot_witness :
  file_name (fileNamed "photo.png.") = "photo.png" +:+ "."
  ∧ validateFile (fileNamed "photo.png.") = Some unsupportedFormatMessage.
Proof.
  split; [reflexivity|].
  apply (validateFile_rejects_trailing_dot (fileNamed "photo.png.") "photo.png").
  reflexivity.
Defined.

(** ** DifyResultDisplay: statistics, icons and colours *)

Section StatisticsMore.

Implicit Types (judgement : list JudgementItem) (item : JudgementItem)
  (status key : string) (stats : gmap string Obj.stored).

Lemma functionSource_ones_nonempty key n :
  JS.isEmpty (Obj.functionSource key +:+ ones n) = false.
Proof. reflexivity. Qed.

Lemma bucket_proto n : bucket "__proto__" n = None.
Proof. by destruct n. Qed.

(** One more occurrence of a key takes its bucket to the next one. *)
Lemma bucket_next key n :
  key ≠ "__proto__" →
  Some (Obj.orZeroPlusOne
          (match bucket key n with
           | Some v => Obj.Own v
           | None =>
               if decide (key ∈ Obj.prototypeFunctions) then Obj.BuiltinFunction key
               else Obj.Undefined
           end))
  = bucket key (S n).
Proof.
  intros Hkey. unfold bucket. rewrite !(decide_False (P := key = "__proto__")) by done.
  destruct n as [|n]; destruct (decide (key ∈ Obj.prototypeFunctions)); try done.
  - unfold Obj.orZeroPlusOne, Obj.toBoolean.
    rewrite functionSource_ones_nonempty. cbn [negb]. by rewrite append_assoc.
  - unfold Obj.orZeroPlusOne, Obj.toBoolean. cbn. by rewrite Nat.add_1_r.
Qed.

Lemma complianceStats_bucket judgement key :
  complianceStats judgement !! key = bucket key (occurrences key judgement).
Proof.
  induction judgement as [|item judgement IH] using rev_ind; [done|].
  rewrite complianceStats_snoc, occurrences_snoc.
  set (key0 := compliance_status (assessment item)) in *.
  unfold Obj.set. destruct (decide (key0 = "__proto__")) as [Hp|Hp].
  - rewrite IH. destruct (decide (key0 = key)) as [<-|Hne].
    + by rewrite Hp, !bucket_proto.
    + by rewrite Nat.add_0_r.
  - destruct (decide (key0 = key)) as [<-|Hne].
    + rewrite lookup_insert_eq, Nat.add_1_r, <-bucket_next by done.
      unfold Obj.get. rewrite decide_False by done. by rewrite IH.
    + by rewrite lookup_insert_ne, Nat.add_0_r.
Qed.

Lemma occurrences_positive key judgement :
  0 < occurrences key judgement ↔ key ∈ (compliance_status ∘ assessment <$> judgement).
Proof.
  unfold occurrences. rewrite list_elem_of_fmap. split.
  - intros Hlen. destruct (filter _ judgement) as [|item rest] eqn:Hf; [simpl in Hlen; lia|].
    assert (item ∈ filter (λ item, compliance_status (assessment item) = key) judgement)
      as Hin by (rewrite Hf; left).
    apply list_elem_of_filter in Hin as [Hst Hin]. by exists item.
  - intros (item & -> & Hin).
    assert (item ∈ filter (λ item', compliance_status (assessment item')
                                    = (compliance_status ∘ assessment) item) judgement)
      as Hf by (by apply list_elem_of_filter).
    destruct (filter _ judgement); [by apply elem_of_nil in Hf|simpl; lia].
Qed.

End StatisticsMore.

(** X4: what [complianceStats] holds under a key is fixed by how often the
    key occurs as a status: nothing if it never occurs or is [__proto__]; the
    number of occurrences for a key that [Object.prototype] does not answer;
    and, for a key that names a function of [Object.prototype], the text of
    that function followed by one [1] for each occurrence. *)
Theorem complianceStats_by_occurrences (judgement : list JudgementItem) (key : string) :
  complianceStats judgement !! key = bucket key (occurrences key judgement).
Proof. apply complianceStats_bucket. Qed.



(** X6: the keys of the statistics are exactly the statuses that occur in the
    list, except [__proto__]: no key is invented, and no other status is left
    without an entry. *)
Theorem complianceStats_keys (judgement : list JudgementItem) (key : string) :
  is_Some (complianceStats judgement !! key)
  ↔ key ≠ "__proto__" ∧ key ∈ (compliance_status ∘ assessment <$> judgement).
Proof.
  rewrite complianceStats_bucket, <-occurrences_positive. unfold bucket.
  destruct (occurrences key judgement) as [|n].
  - split; [by intros [? ?]|intros [_ ?]; lia].
  - destruct (decide (key = "__proto__")) as [->|Hne].
    + split; [by intros [? ?]|by intros [? _]].
    + split; [intros _; split; [done|lia]|intros _].
      by destruct (decide (key ∈ Obj.prototypeFunctions)).
Qed.

(** X7: on a list none of whose statuses is a key of [Object.prototype], each
    status is counted with the number of its occurrences, no other key has
    an entry, and the counts sum to the number of items. *)
Theorem plain_statuses_are_counted_completely (judgement : list JudgementItem) :
  plainStatuses judgement →
  (∀ status,
     complianceStats judgement !! status
     = if decide (occurrences status judgement = 0) then None
       else Some (Obj.Num (occurrences status judgement)))
  ∧ totalCount (complianceStats judgement) = length judgement.
Proof.
  intros Hplain. split; [|by apply complianceStats_complete].
  intros status. rewrite (complianceStats_lookup _ _ Hplain).
  by destruct (occurrences status judgement).
Qed.

Lemma plain_statuses_are_counted_completely_witness :
  plainStatuses [itemWithStatus "○"; itemWithStatus "?"; itemWithStatus "○"]
  ∧ totalCount (complianceStats [itemWithStatus "○"; itemWithStatus "?"; itemWithStatus "○"])
    = length [itemWithStatus "○"; itemWithStatus "?"; itemWithStatus "○"].
Proof.
  assert (plainStatuses [itemWithStatus "○"; itemWithStatus "?"; itemWithStatus "○"])
    as Hplain.
  { repeat constructor; apply (bool_decide_unpack _); vm_compute; exact I. }
  split; [exact Hplain|].
  apply (plain_statuses_are_counted_completely _ Hplain).
Defined.



(** X9: the icon and the colour of a compliance chip always go together:
    check with [success], warning with [warning], cancel with [error], and
    the info icon with [default]; the last pair is the one of every status
    other than the three known symbols. *)
Theorem compliance_icon_matches_colour (status : string) :
  (chip_icon (summaryChip status), chip_color (summaryChip status))
  ∈ [((CheckCircleIcon, "#4caf50"), "success"); ((WarningIcon, "#ff9800"), "warning");
     ((CancelIcon, "#f44336"), "error"); ((InfoIcon, "#2196f3"), "default")]
  ∧ (status ∈ ["○"; "△"; "×"] ↔ getComplianceStatusColor status ∈ ["success"; "warning"; "error"])
  ∧ (status ∈ ["○"; "△"; "×"] ↔ (getComplianceStatusIcon status).1 ∈ [CheckCircleIcon; WarningIcon; CancelIcon]).
Proof.
  unfold summaryChip, getComplianceStatusIcon, getComplianceStatusColor. simpl.
  destruct (decide (status = "○")) as [->|H1];
    [|destruct (decide (status = "△")) as [->|H2];
      [|destruct (decide (status = "×")) as [->|H3]]].
  1-3: split_and!; [|split; intros _|split; intros _];
    repeat first [apply list_elem_of_here | apply list_elem_of_further].
  split_and!.
  - repeat first [apply list_elem_of_here | apply list_elem_of_further].
  - split; intros Hin; exfalso; apply list_elem_of_In in Hin; simpl in Hin;
      intuition congruence.
  - split; intros Hin; exfalso; apply list_elem_of_In in Hin; simpl in Hin;
      intuition congruence.
Qed.

(** X10: in the header of the result display the chip is green exactly when
    the mark beside it is the green check, which is exactly for the status
    [succeeded]; for every other status, [running] and [stopped] among them,
    the chip is red. *)
Theorem status_chip_matches_icon (status : string) :
  (statusChipColor status = "success"
   ↔ getStatusIcon status = ColouredIcon CheckCircleIcon "#4caf50")
  ∧ (getStatusIcon status = ColouredIcon CheckCircleIcon "#4caf50" ↔ status = "succeeded")
  ∧ statusChipColor status ∈ ["success"; "error"].
Proof.
  unfold statusChipColor, getStatusIcon.
  repeat case_decide; subst; split_and!;
    try (split; intros; done);
    repeat first [apply list_elem_of_here | apply list_elem_of_further].
Qed.

(** ** DifyFileUpload: the upload itself *)

Section UploadRuns.

Variable props : Upload.Props.

Implicit Types (w : Upload.World) (st : Upload.State) (file : File)
  (events : list Upload.Event) (e : Upload.Event).

Lemma uploadFile_rejected file st :
  validateFile file ≠ None →
  Upload.uploadFile props file st
  = (st, [Upload.OnUploadError unsupportedFormatMessage], None).
Proof.
  intros Hne. unfold Upload.uploadFile.
  destruct (validateFile file) as [msg|] eqn:Hv; [|done].
  apply validateFile_message in Hv as ->. reflexivity.
Qed.

Lemma uploadFile_accepted file st :
  validateFile file = None →
  Upload.uploadFile props file st
  = (Upload.setUploading true st, [],
     Some {| Upload.authorization := "Bearer " +:+ Upload.apiKey props;
             Upload.form_file := file;
             Upload.form_user := encodeURIComponent (Upload.userId props) |}).
Proof. intros Hv. unfold Upload.uploadFile. by rewrite Hv. Qed.

Lemma uploadFileSettled_one_callback file outcome st :
  ∃ c, (Upload.uploadFileSettled file outcome st).1.2 = [c]
       ∧ Upload.uploading (Upload.uploadFileSettled file outcome st).1.1 = false.
Proof.
  unfold Upload.uploadFileSettled. destruct (Upload.tryBlock outcome); eauto.
Qed.

Lemma length_removeFile file (l : list File) :
  file ∈ l → S (length (Upload.removeFile file l)) = length l.
Proof.
  induction l as [|y l IH]; simpl; [by intros ?%elem_of_nil|].
  intros Hin. destruct (decide (file = y)) as [->|Hne]; [done|].
  apply elem_of_cons in Hin as [?|Hin]; [done|]. simpl. by rewrite IH.
Qed.

(** What one event adds to the callbacks called and the uploads in flight. *)
Lemma step_accounts w e w' :
  Upload.step props w e = Some w' →
  length (Upload.called w') + length (Upload.inFlight w')
  = length (Upload.called w) + length (Upload.inFlight w)
    + match Upload.submitted e with Some _ => 1 | None => 0 end.
Proof.
  assert (∀ file st,
            let r := Upload.uploadFile props file st in
            length r.1.2 + match r.2 with Some _ => 1 | None => 0 end = 1) as Hupload.
  { intros file st. destruct (validateFile file) as [msg|] eqn:Hv.
    - by rewrite uploadFile_rejected by (by rewrite Hv).
    - by rewrite uploadFile_accepted. }
  destruct e as [files|files| | |file outcome|]; simpl; intros Hstep.
  - simplify_eq. unfold Upload.started, Upload.handleFileSelect.
    destruct (Upload.firstFile files) as [file|]; simpl; [|lia].
    specialize (Hupload file (Upload.state w)). simpl in Hupload.
    rewrite length_app. destruct (Upload.uploadFile _ _ _).2; simpl in *; lia.
  - simplify_eq. unfold Upload.started, Upload.handleDrop.
    destruct (Upload.firstFile files) as [file|]; simpl; [|lia].
    specialize (Hupload file (Upload.setDragOver false (Upload.state w))). simpl in Hupload.
    rewrite length_app. destruct (Upload.uploadFile _ _ _).2; simpl in *; lia.
  - simplify_eq. simpl. lia.
  - simplify_eq. simpl. lia.
  - case_decide as Hin; [|done]. simplify_eq. simpl.
    destruct (uploadFileSettled_one_callback file outcome (Upload.state w)) as (c & -> & _).
    pose proof (length_removeFile _ _ Hin). simpl. lia.
  - destruct (Upload.timers w); [done|]. simplify_eq. simpl. lia.
Qed.

Lemma run_accounts events w w' :
  Upload.run props w events = Some w' →
  length (Upload.called w') + length (Upload.inFlight w')
  = length (Upload.called w) + length (Upload.inFlight w)
    + length (omap Upload.submitted events).
Proof.
  revert w. induction events as [|e events IH]; simpl; intros w Hrun.
  { simplify_eq. lia. }
  destruct (Upload.step props w e) as [w1|] eqn:Hstep; [|done]. simpl in Hrun.
  rewrite (IH _ Hrun), (step_accounts _ _ _ Hstep).
  destruct (Upload.submitted e); simpl;
    change (list_omap _ _ Upload.submitted events) with (omap Upload.submitted events);
    lia.
Qed.

(** With files arriving through the input only, the spinner state and the
    uploads in flight go together. *)
Lemma step_keeps_single_upload w e w' :
  Upload.inFlight w = [] ∧ Upload.uploading (Upload.state w) = false
  ∨ (∃ file, Upload.inFlight w = [file]) ∧ Upload.uploading (Upload.state w) = true →
  Upload.offered w e && Upload.throughInput e = true →
  Upload.step props w e = Some w' →
  Upload.inFlight w' = [] ∧ Upload.uploading (Upload.state w') = false
  ∨ (∃ file, Upload.inFlight w' = [file]) ∧ Upload.uploading (Upload.state w') = true.
Proof.
  intros Hinv [Hoffered Hinput]%andb_true_iff Hstep.
  destruct e as [files|files| | |file outcome|]; simpl in *.
  - apply negb_true_iff in Hoffered. destruct Hinv as [[Hnone _]|[_ Hup]]; [|congruence].
    simplify_eq. unfold Upload.started, Upload.handleFileSelect.
    destruct (Upload.firstFile files) as [file|]; simpl; [|by left].
    destruct (validateFile file) as [msg|] eqn:Hv.
    + rewrite uploadFile_rejected by (by rewrite Hv). simpl. by left.
    + rewrite uploadFile_accepted by done. simpl. rewrite Hnone. right. eauto.
  - destruct files; [|done]. by simplify_eq.
  - by simplify_eq.
  - by simplify_eq.
  - case_decide as Hin; [|done]. simplify_eq. simpl.
    destruct (uploadFileSettled_one_callback file outcome (Upload.state w)) as (_ & _ & ->).
    destruct Hinv as [[Hnone _]|[[file' Hone] _]].
    + rewrite Hnone in Hin. by apply elem_of_nil in Hin.
    + rewrite Hone in Hin |- *. apply list_elem_of_singleton in Hin as ->.
      simpl. rewrite decide_True by done. by left.
  - destruct (Upload.timers w); [done|]. by simplify_eq.
Qed.

End UploadRuns.

(** X11: a file that does not pass [validateFile] never reaches [fetch],
    whether it is selected or dropped: the only thing that happens is one
    call of [onUploadError] with the message that lists the formats (and the
    drop zone leaving its drag-over look); the state of the component is
    otherwise as before.  With
    [handleUploadError] as that callback, the page's error slot then holds
    that message and nothing else of the page changes. *)
Theorem unsupported_file_only_raises_error
    (props : Upload.Props) (file : File) (rest : list File)
    (st : Upload.State) (s : State) :
  validateFile file ≠ None →
  Upload.handleFileSelect props (file :: rest) st
  = (st, [Upload.OnUploadError unsupportedFormatMessage], None)
  ∧ Upload.handleDrop props (file :: rest) st
    = (Upload.setDragOver false st, [Upload.OnUploadError unsupportedFormatMessage], None)
  ∧ error (handleUploadError unsupportedFormatMessage s) = Some unsupportedFormatMessage
  ∧ sameButError s (handleUploadError unsupportedFormatMessage s).
Proof.
  intros Hne. unfold Upload.handleFileSelect, Upload.handleDrop. simpl.
  by rewrite !uploadFile_rejected.
Qed.

Lemma unsupported_file_only_raises_error_witness :
  validateFile (fileNamed "notes.txt") ≠ None
  ∧ Upload.handleDrop {| Upload.apiKey := "key"; Upload.userId := "user-123" |}
      [fileNamed "notes.txt"] Upload.initialState
    = (Upload.initialState, [Upload.OnUploadError unsupportedFormatMessage], None).
Proof.
  assert (validateFile (fileNamed "notes.txt") ≠ None) as Hne by discriminate.
  split; [exact Hne|].
  apply (unsupported_file_only_raises_error
           {| Upload.apiKey := "key"; Upload.userId := "user-123" |}
           (fileNamed "notes.txt") [] Upload.initialState initialState Hne).
Defined.

(** X12: every file handed to [uploadFile] gets exactly one callback, at once
    if it fails validation and when its fetch settles otherwise: in every run
    of the component, the callbacks called and the uploads still in flight
    add up to the files that were selected or dropped. *)
Theorem every_upload_gets_one_callback
    (props : Upload.Props) (events : list Upload.Event) (w : Upload.World) :
  Upload.run props Upload.initialWorld events = Some w →
  length (Upload.called w) + length (Upload.inFlight w)
  = length (omap Upload.submitted events).
Proof. intros Hrun. by rewrite (run_accounts props _ _ _ Hrun). Qed.

Lemma every_upload_gets_one_callback_witness :
  Upload.run {| Upload.apiKey := "key"; Upload.userId := "user-123" |} Upload.initialWorld
    [Upload.FilesDropped [fileNamed "notes.txt"]; Upload.FilesSelected [docPdf];
     Upload.Settled docPdf (Upload.OkUnparsable "<html>" (JS.ThrownError "Unexpected token"));
     Upload.FilesDropped [docPdf]]
  = Some {| Upload.state :=
              {| Upload.uploading := true; Upload.dragOver := false;
                 Upload.uploadSuccess := false |};
            Upload.inFlight := [docPdf];
            Upload.timers := 0;
            Upload.called :=
              [Upload.OnUploadError Upload.parseFailedMessage;
               Upload.OnUploadError unsupportedFormatMessage] |}
  ∧ length [Upload.OnUploadError Upload.parseFailedMessage;
            Upload.OnUploadError unsupportedFormatMessage]
    + length [docPdf]
    = 3.
Proof.
  assert (Upload.run {| Upload.apiKey := "key"; Upload.userId := "user-123" |}
            Upload.initialWorld
            [Upload.FilesDropped [fileNamed "notes.txt"]; Upload.FilesSelected [docPdf];
             Upload.Settled docPdf
               (Upload.OkUnparsable "<html>" (JS.ThrownError "Unexpected token"));
             Upload.FilesDropped [docPdf]]
          = Some {| Upload.state :=
                      {| Upload.uploading := true; Upload.dragOver := false;
                         Upload.uploadSuccess := false |};
                    Upload.inFlight := [docPdf];
                    Upload.timers := 0;
                    Upload.called :=
                      [Upload.OnUploadError Upload.parseFailedMessage;
                       Upload.OnUploadError unsupportedFormatMessage] |}) as Hrun.
  { vm_compute. reflexivity. }
  split; [exact Hrun|].
  exact (every_upload_gets_one_callback _ _ _ Hrun).
Defined.

(** X13: as long as files arrive through the file input only, which is
    disabled while [uploading], at most one upload is in flight, and the
    spinner is shown exactly while one is. *)
Theorem input_keeps_one_upload_in_flight
    (props : Upload.Props) (events : list Upload.Event) (w : Upload.World) :
  Upload.runThroughInput props Upload.initialWorld events = Some w →
  length (Upload.inFlight w) ≤ 1
  ∧ (Upload.face (Upload.state w) = Upload.Spinner ↔ Upload.inFlight w ≠ []).
Proof.
  intros Hrun.
  assert (Upload.inFlight w = [] ∧ Upload.uploading (Upload.state w) = false
          ∨ (∃ file, Upload.inFlight w = [file]) ∧ Upload.uploading (Upload.state w) = true)
    as Hinv.
  { assert (Upload.inFlight Upload.initialWorld = []
            ∧ Upload.uploading (Upload.state Upload.initialWorld) = false
            ∨ (∃ file, Upload.inFlight Upload.initialWorld = [file])
              ∧ Upload.uploading (Upload.state Upload.initialWorld) = true) as Hinit
      by (by left).
    revert Hinit Hrun. generalize Upload.initialWorld. intros w0.
    revert w0. induction events as [|e events IH]; simpl; intros w0 Hinit Hrun.
    { by simplify_eq. }
    destruct (Upload.offered w0 e && Upload.throughInput e) eqn:Hok; [|done].
    destruct (Upload.step props w0 e) as [w1|] eqn:Hstep; [|done]. simpl in Hrun.
    apply (IH w1); [|done]. by eapply step_keeps_single_upload. }
  unfold Upload.face.
  destruct Hinv as [[Hl Hu]|[[file Hl] Hu]]; rewrite Hl, Hu; simpl.
  - split; [lia|]. destruct (Upload.uploadSuccess _); split; done.
  - split; [lia|]. split; done.
Qed.

Lemma input_keeps_one_upload_in_flight_witness :
  Upload.runThroughInput {| Upload.apiKey := "key"; Upload.userId := "user-123" |}
    Upload.initialWorld [Upload.FilesSelected [docPdf]]
  = Some {| Upload.state := Upload.setUploading true Upload.initialState;
            Upload.inFlight := [docPdf]; Upload.timers := 0; Upload.called := [] |}
  ∧ Upload.runThroughInput {| Upload.apiKey := "key"; Upload.userId := "user-123" |}
      Upload.initialWorld [Upload.FilesSelected [docPdf]; Upload.FilesSelected [docPdf]]
    = None
  ∧ length [docPdf] ≤ 1.
Proof.
  split_and!; [vm_compute; reflexivity|vm_compute; reflexivity|].
  apply (input_keeps_one_upload_in_flight
           {| Upload.apiKey := "key"; Upload.userId := "user-123" |}
           [Upload.FilesSelected [docPdf]]
           {| Upload.state := Upload.setUploading true Upload.initialState;
              Upload.inFlight := [docPdf]; Upload.timers := 0; Upload.called := [] |}).
  vm_compute. reflexivity.
Defined.

(** X14: a drop is not held back while an upload is running.  Two supported
    files dropped one after the other are both sent, and when the first
    upload settles the spinner goes away although the second is still in
    flight. *)
Theorem drop_during_upload_starts_second_upload
    (props : Upload.Props) (w : Upload.World) (file1 file2 : File)
    (outcome : Upload.Outcome) :
  validateFile file1 = None →
  validateFile file2 = None →
  ∃ w',
    Upload.run props w
      [Upload.FilesDropped [file1]; Upload.FilesDropped [file2];
       Upload.Settled file1 outcome]
    = Some w'
    ∧ length (Upload.inFlight w') = S (length (Upload.inFlight w))
    ∧ file2 ∈ Upload.inFlight w'
    ∧ Upload.uploading (Upload.state w') = false
    ∧ Upload.face (Upload.state w') ≠ Upload.Spinner.
Proof.
  intros Hv1 Hv2. simpl. unfold Upload.started, Upload.handleDrop. simpl.
  rewrite !uploadFile_accepted by done. simpl.
  rewrite decide_True by (apply list_elem_of_further, list_elem_of_here).
  simpl.
  destruct (uploadFileSettled_one_callback file1 outcome
              (Upload.setUploading true
                 (Upload.setDragOver false
                    (Upload.setUploading true (Upload.setDragOver false (Upload.state w))))))
    as (c & Hc & Hup).
  eexists. split; [reflexivity|]. simpl. split_and!.
  - destruct (decide (file1 = file2)); simpl; [done|]. by rewrite decide_True.
  - destruct (decide (file1 = file2)) as [->|Hne]; [apply list_elem_of_here|].
    apply list_elem_of_here.
  - exact Hup.
  - unfold Upload.face. rewrite Hup.
    by destruct (Upload.uploadSuccess _).
Qed.

Lemma drop_during_upload_starts_second_upload_witness :
  validateFile docPdf = None
  ∧ validateFile (fileNamed "scan.png") = None
  ∧ ∃ w',
      Upload.run {| Upload.apiKey := "key"; Upload.userId := "user-123" |} Upload.initialWorld
        [Upload.FilesDropped [docPdf]; Upload.FilesDropped [fileNamed "scan.png"];
         Upload.Settled docPdf (Upload.Rejected (JS.ThrownError "Failed to fetch"))]
      = Some w'
      ∧ length (Upload.inFlight w') = S (length (Upload.inFlight Upload.initialWorld))
      ∧ fileNamed "scan.png" ∈ Upload.inFlight w'
      ∧ Upload.uploading (Upload.state w') = false
      ∧ Upload.face (Upload.state w') ≠ Upload.Spinner.
Proof.
  split_and!; [reflexivity|reflexivity|].
  apply (drop_during_upload_starts_second_upload
           {| Upload.apiKey := "key"; Upload.userId := "user-123" |} Upload.initialWorld
           docPdf (fileNamed "scan.png")
           (Upload.Rejected (JS.ThrownError "Failed to fetch")));
    reflexivity.
Defined.

(** ** DifyFileUploadDemo: what every run keeps *)

Section RunInvariants.

Implicit Types (s : State) (w : World) (fileId : string) (events : list Event) (e : Event).

Lemma settled_record_wellFormed fileId outcome now s :
  ∃ record,
    workflowResults (executeWorkflowSettled fileId outcome now s)
    = record :: workflowResults s
    ∧ wr_file_id record = fileId ∧ recordWellFormed record.
Proof.
  destruct (executeWorkflowSettled_frame fileId outcome now s)
    as (_ & _ & _ & _ & _ & record & Hres & Hid & Htry).
  exists record. split_and!; [done|done|].
  destruct (tryBlock fileId outcome now) as [thrown|r] eqn:E.
  - right. destruct Htry as (-> & -> & -> & _). eauto.
  - left. destruct Htry as [-> _].
    destruct (tryBlock_completed _ _ _ _ E) as (payload & _ & -> & -> & ->). eauto.
Qed.

Lemma step_keeps_records_wellFormed w e w' :
  Forall recordWellFormed (workflowResults (ui w)) →
  step w e = Some w' →
  Forall recordWellFormed (workflowResults (ui w')).
Proof.
  intros Hall Hstep.
  destruct e as [result file|message| | | | |fileId|fileId outcome now];
    simpl in Hstep; try (by simplify_eq).
  - destruct (credentialGiven (ui w) && hasFile fileId (ui w)) eqn:Hvalid.
    + apply andb_true_iff in Hvalid as [Hkey Hfile].
      rewrite (executeWorkflow_accepted _ _ Hkey Hfile) in Hstep. by simplify_eq.
    + destruct (executeWorkflow_refused _ _ Hvalid) as (message & _ & Hcall).
      rewrite Hcall in Hstep. by simplify_eq.
  - case_decide; [|done]. simplify_eq. cbn [ui].
    destruct (settled_record_wellFormed fileId outcome now (ui w))
      as (record & -> & _ & Hwf).
    by constructor.
Qed.

Lemma run_keeps_records_wellFormed events w w' :
  Forall recordWellFormed (workflowResults (ui w)) →
  run w events = Some w' →
  Forall recordWellFormed (workflowResults (ui w')).
Proof.
  revert w. induction events as [|e events IH]; simpl; intros w Hall Hrun.
  { by simplify_eq. }
  destruct (step w e) as [w1|] eqn:Hstep; [|done]. simpl in Hrun.
  eapply IH; [|done]. by eapply step_keeps_records_wellFormed.
Qed.

Lemma hasFile_registered fileId s :
  hasFile fileId s = true → fileId ∈ (ur_id <$> uploadResults s).
Proof.
  unfold hasFile, findUpload. intros [f Hf]%bool_decide_eq_true.
  destruct (find _ (uploadResults s)) as [u|] eqn:Hfind; [|done].
  apply find_some in Hfind as [Hin Hid%bool_decide_eq_true].
  apply list_elem_of_fmap. exists u. split; [done|]. by apply list_elem_of_In.
Qed.

Lemma step_keeps_referencesRegistered w e w' :
  referencesRegistered w → step w e = Some w' → referencesRegistered w'.
Proof.
  intros (Hfiles & Hrecords & Hexec & Hfetch) Hstep.
  destruct e as [result file|message| | | | |fileId|fileId outcome now];
    simpl in Hstep; try (simplify_eq; by split_and!).
  - (* registering an upload *)
    simplify_eq. split_and!; simpl.
    + intros u [->|Hin]%elem_of_cons; [by eexists|by apply Hfiles].
    + intros r Hin. apply list_elem_of_further. by apply Hrecords.
    + intros fileId Hin. apply list_elem_of_further. by apply Hexec.
    + intros fileId Hin. apply list_elem_of_further. by apply Hfetch.
  - (* a call of executeWorkflow *)
    destruct (credentialGiven (ui w) && hasFile fileId (ui w)) eqn:Hvalid.
    + apply andb_true_iff in Hvalid as [Hkey Hfile].
      rewrite (executeWorkflow_accepted _ _ Hkey Hfile) in Hstep. simplify_eq.
      apply hasFile_registered in Hfile.
      split_and!; simpl; [done|done| |].
      * intros other [Hin| ->%elem_of_singleton]%elem_of_union; [by apply Hexec|done].
      * intros other [->|Hin]%elem_of_cons; [done|by apply Hfetch].
    + destruct (executeWorkflow_refused _ _ Hvalid) as (message & _ & Hcall).
      rewrite Hcall in Hstep. simplify_eq. by split_and!.
  - (* the end of an execution *)
    case_decide as Hin; [|done]. simplify_eq.
    destruct (executeWorkflowSettled_frame fileId outcome now (ui w))
      as (_ & _ & _ & Huploads & Hset & record & Hres & Hid & _).
    split_and!; cbn [ui inFlight]; rewrite ?Huploads.
    + done.
    + rewrite Hres. intros r [->|Hr]%elem_of_cons; [|by apply Hrecords].
      rewrite Hid. by apply Hfetch.
    + rewrite Hset. intros other [Hother _]%elem_of_difference. by apply Hexec.
    + intros other Hother. apply Hfetch. clear -Hother.
      induction (inFlight w) as [|y l IH]; simpl in Hother; [done|].
      destruct (decide (fileId = y)); [by right|].
      apply elem_of_cons in Hother as [->|Hother]; [by left|right; by apply IH].
Qed.

Lemma run_keeps_referencesRegistered events w w' :
  referencesRegistered w → run w events = Some w' → referencesRegistered w'.
Proof.
  revert w. induction events as [|e events IH]; simpl; intros w Hinv Hrun.
  { by simplify_eq. }
  destruct (step w e) as [w1|] eqn:Hstep; [|done]. simpl in Hrun.
  eapply IH; [|done]. by eapply step_keeps_referencesRegistered.
Qed.

Lemma initialWorld_referencesRegistered : referencesRegistered initialWorld.
Proof.
  split_and!; simpl.
  - by intros u ?%elem_of_nil.
  - by intros r ?%elem_of_nil.
  - by intros fileId ?%elem_of_empty.
  - by intros fileId ?%elem_of_nil.
Qed.

Lemma findUpload_registered fileId s :
  fileId ∈ (ur_id <$> uploadResults s) →
  ∃ u, findUpload fileId s = Some u ∧ ur_id u = fileId ∧ u ∈ uploadResults s.
Proof.
  unfold findUpload. induction (uploadResults s) as [|u l IH]; simpl.
  { by intros ?%elem_of_nil. }
  intros Hin. destruct (decide (ur_id u = fileId)) as [Heq|Hne].
  - rewrite bool_decide_eq_true_2 by done. exists u. split_and!; [done|done|by left].
  - rewrite bool_decide_eq_false_2 by done.
    apply elem_of_cons in Hin as [?|Hin]; [done|].
    destruct (IH Hin) as (u' & ? & ? & ?). exists u'. split_and!; [done|done|by right].
Qed.

End RunInvariants.

(** X15: in every run from the initial state, every execution record is
    either [completed] with a payload and no error, or [failed] with an error
    message and no payload; no record is ever [running]. *)
Theorem records_are_completed_or_failed (events : list Event) (w : World) :
  run initialWorld events = Some w →
  Forall recordWellFormed (workflowResults (ui w))
  ∧ Forall (λ r, wr_status r ≠ running) (workflowResults (ui w)).
Proof.
  intros Hrun.
  assert (Forall recordWellFormed (workflowResults (ui w))) as Hall.
  { eapply run_keeps_records_wellFormed; [|exact Hrun]. constructor. }
  split; [done|].
  eapply Forall_impl; [exact Hall|]. intros r [[-> _]|[-> _]]; done.
Qed.

Lemma records_are_completed_or_failed_witness :
  run initialWorld
    [UploadSucceeded (uploadOf "f1") docPdf; WorkflowApiKeyTyped "app-key";
     ExecuteCalled "f1"; FetchSettled "f1" (ResponseOk (inr failedPayload)) 1700000000123]
  = Some {| ui := executeWorkflowSettled "f1" (ResponseOk (inr failedPayload)) 1700000000123
                    pendingState;
            inFlight := [] |}
  ∧ Forall recordWellFormed
      (workflowResults
         (executeWorkflowSettled "f1" (ResponseOk (inr failedPayload)) 1700000000123
            pendingState)).
Proof.
  assert (run initialWorld
            [UploadSucceeded (uploadOf "f1") docPdf; WorkflowApiKeyTyped "app-key";
             ExecuteCalled "f1";
             FetchSettled "f1" (ResponseOk (inr failedPayload)) 1700000000123]
          = Some {| ui := executeWorkflowSettled "f1" (ResponseOk (inr failedPayload))
                            1700000000123 pendingState;
                    inFlight := [] |}) as Hrun.
  { vm_compute. reflexivity. }
  split; [exact Hrun|].
  exact (proj1 (records_are_completed_or_failed _ _ Hrun)).
Defined.

(** X16: in every run from the initial state, every registered upload holds
    its file, and every execution record, every executing file id and every
    fetch in flight names a registered upload; so [executeWorkflow] reports
    a missing file for unregistered ids only. *)
Theorem records_reference_registered_uploads (events : list Event) (w : World) :
  run initialWorld events = Some w →
  referencesRegistered w
  ∧ ∀ fileId, hasFile fileId (ui w) = bool_decide (fileId ∈ (ur_id <$> uploadResults (ui w))).
Proof.
  intros Hrun.
  assert (referencesRegistered w) as Hinv.
  { eapply run_keeps_referencesRegistered; [|exact Hrun].
    apply initialWorld_referencesRegistered. }
  split; [done|]. intros fileId.
  destruct (hasFile fileId (ui w)) eqn:Hfile.
  - symmetry. apply bool_decide_eq_true. by apply hasFile_registered.
  - symmetry. apply bool_decide_eq_false. intros Hin.
    destruct (findUpload_registered _ _ Hin) as (u & Hfind & _ & Hu).
    destruct Hinv as (Hfiles & _). destruct (Hfiles u Hu) as [f Hf].
    unfold hasFile in Hfile. apply bool_decide_eq_false in Hfile. apply Hfile.
    rewrite Hfind. simpl. by rewrite Hf.
Qed.

Lemma records_reference_registered_uploads_witness :
  run initialWorld
    [UploadSucceeded (uploadOf "f1") docPdf; WorkflowApiKeyTyped "app-key";
     ExecuteCalled "f1"; ExecuteCalled "ghost"]
  = Some {| ui := (executeWorkflow "ghost" pendingState).1; inFlight := ["f1"] |}
  ∧ referencesRegistered
      {| ui := (executeWorkflow "ghost" pendingState).1; inFlight := ["f1"] |}.
Proof.
  assert (run initialWorld
            [UploadSucceeded (uploadOf "f1") docPdf; WorkflowApiKeyTyped "app-key";
             ExecuteCalled "f1"; ExecuteCalled "ghost"]
          = Some {| ui := (executeWorkflow "ghost" pendingState).1; inFlight := ["f1"] |})
    as Hrun.
  { vm_compute. reflexivity. }
  split; [exact Hrun|].
  exact (proj1 (records_reference_registered_uploads _ _ Hrun)).
Defined.

(** X17: [getWorkflowResultForFile] returns the record of the file that is
    nearest to the front of the history, that is, the one added last: every
    record in front of it belongs to another file; and it returns nothing
    only if the history has no record of the file. *)
Theorem latest_record_is_nearest_to_front (fileId : string) (s : State) :
  match getWorkflowResultForFile fileId s with
  | Some r =>
      wr_file_id r = fileId
      ∧ ∃ newer older,
          workflowResults s = newer ++ r :: older
          ∧ Forall (λ r', wr_file_id r' ≠ fileId) newer
  | None => Forall (λ r', wr_file_id r' ≠ fileId) (workflowResults s)
  end.
Proof.
  unfold getWorkflowResultForFile.
  induction (workflowResults s) as [|r l IH]; simpl; [constructor|].
  destruct (decide (wr_file_id r = fileId)) as [Heq|Hne].
  - rewrite bool_decide_eq_true_2 by done. split; [done|].
    exists [], l. split; [done|constructor].
  - rewrite bool_decide_eq_false_2 by done.
    destruct (find _ l) as [r'|].
    + destruct IH as (Hid & newer & older & -> & Hnewer). split; [done|].
      exists (r :: newer), older. split; [done|by constructor].
    + by constructor.
Qed.

(** X18: called twice for the same file before the first fetch settles,
    [executeWorkflow] sends two requests, and when the first of them settles
    the file is reported as not pending although the second fetch is still
    in flight. *)
Theorem pending_is_cleared_by_the_first_of_two_fetches
    (s : State) (fetches : list string) (fileId : string)
    (outcome : FetchOutcome) (now : N) :
  credentialGiven s = true →
  hasFile fileId s = true →
  ∃ w',
    run {| ui := s; inFlight := fetches |}
      [ExecuteCalled fileId; ExecuteCalled fileId; FetchSettled fileId outcome now]
    = Some w'
    ∧ inFlight w' = fileId :: fetches
    ∧ pending (readModel fileId (ui w')) = false.
Proof.
  intros Hkey Hfile. cbn [run step ui inFlight].
  rewrite (executeWorkflow_accepted _ _ Hkey Hfile). cbn [mbind option_bind ui inFlight].
  set (s1 := setError None _).
  assert (credentialGiven s1 = true) as Hkey1 by exact Hkey.
  assert (hasFile fileId s1 = true) as Hfile1 by exact Hfile.
  rewrite (executeWorkflow_accepted _ _ Hkey1 Hfile1). cbn [mbind option_bind ui inFlight].
  rewrite decide_True by apply list_elem_of_here.
  eexists. split; [reflexivity|]. cbn [ui inFlight removeOne].
  rewrite decide_True by done. split; [done|].
  destruct (settled_record_wellFormed fileId outcome now
              (setError None (setExecutingWorkflows (λ prev, prev ∪ {[fileId]}) s1)))
    as (record & Hres & Hid & _).
  by rewrite (readModel_after_settled _ _ _ _ _ Hres Hid).
Qed.

Lemma pending_is_cleared_by_the_first_of_two_fetches_witness :
  credentialGiven (ui readyWorld) = true
  ∧ hasFile "f1" (ui readyWorld) = true
  ∧ ∃ w',
      run {| ui := ui readyWorld; inFlight := [] |}
        [ExecuteCalled "f1"; ExecuteCalled "f1";
         FetchSettled "f1" (ResponseOk (inr succeededPayload)) 1700000000123]
      = Some w'
      ∧ inFlight w' = ["f1"]
      ∧ pending (readModel "f1" (ui w')) = false.
Proof.
  split_and!; [vm_compute; reflexivity|vm_compute; reflexivity|].
  apply (pending_is_cleared_by_the_first_of_two_fetches (ui readyWorld) [] "f1"
           (ResponseOk (inr succeededPayload)) 1700000000123);
    vm_compute; reflexivity.
Defined.



(** X20: the icon and the chip of the file type column classify every mime
    type alike: both show the image icon for a type that starts with
    [image/], the PDF icon for [application/pdf] and for nothing else, and
    the folder icon for the rest. *)
Theorem file_type_icon_matches_chip (mimeType : string) :
  ftc_icon (getFileTypeChip mimeType) = (getFileTypeIcon mimeType).1
  ∧ (ftc_icon (getFileTypeChip mimeType) = ImageIcon ↔ String.prefix "image/" mimeType = true)
  ∧ (ftc_icon (getFileTypeChip mimeType) = PdfIcon ↔ mimeType = "application/pdf").
Proof.
  unfold getFileTypeChip, getFileTypeIcon.
  destruct (String.prefix "image/" mimeType) eqn:Himg; simpl.
  - split_and!; [done|done|]. split; [done|]. intros ->. by vm_compute in Himg.
  - destruct (decide (mimeType = "application/pdf")); simpl; split_and!;
      try done; split; done.
Qed.
